(** * gorest: annotation parser, request-spec walker and generated builder

    A shallow embedding of the Go packages [parse], [restclient] and
    [generate] of github.com/jsaund/gorest, and of the request builder that
    [generate.Generate] emits, followed by the properties established about
    them. *)

From Stdlib Require Import Ascii String Bool Arith Lia.
From stdpp Require Import gmap strings list fin_maps sorting.

Set Default Proof Using "Type".
Set Warnings "-register-all".

(* ===================================================================== *)
(** * Outcomes of Go code *)
(* ===================================================================== *)

(** A Go call either returns, panics (a nil dereference or an index out of
    range aborts the goroutine), or ends the process through [log.Fatalf]. *)
Inductive outcome (A : Type) : Type :=
| Returns (a : A)
| Panics (why : string)
| Exits (why : string).
Arguments Returns {A} a.
Arguments Panics {A} why.
Arguments Exits {A} why.

#[global] Instance outcome_ret : MRet outcome := fun A a => Returns a.
#[global] Instance outcome_bind : MBind outcome := fun A B k m =>
  match m with
  | Returns a => k a
  | Panics w => Panics w
  | Exits w => Exits w
  end.

Definition nil_dereference : string := "invalid memory address or nil pointer dereference".
Definition index_out_of_range : string := "index out of range".

(* ===================================================================== *)
(** * Strings *)
(* ===================================================================== *)

Definition quote : ascii := "034"%char.
Definition newline : ascii := "010"%char.

(** [str c] is the one-character string. *)
Definition str (c : ascii) : string := String c EmptyString.

(** Byte-wise prefix test, Go's [strings.HasPrefix]. *)
Fixpoint has_prefix (p s : string) : bool :=
  match p, s with
  | EmptyString, _ => true
  | String a p', String b s' => Ascii.eqb a b && has_prefix p' s'
  | String _ _, EmptyString => false
  end.

(** [occurs c s]: the byte [c] occurs in [s]. *)
Fixpoint occurs (c : ascii) (s : string) : bool :=
  match s with
  | EmptyString => false
  | String a s' => Ascii.eqb c a || occurs c s'
  end.

(* ===================================================================== *)
(** * Package regexp, as far as [parse.pattern] needs it *)
(* ===================================================================== *)

Module regexp.

(** Matching is that of Go: the leftmost match, and at a start position the
    match a backtracking search with greedy repetitions finds first.  The
    subject is read byte by byte; the bytes the pattern names are ASCII, and
    a byte that is no ASCII character is in the class of the dot and not in
    the class of the word characters, as the runes of the text are.

    The pieces that occur in the pattern: a literal byte, and a capturing
    group around a greedy repetition of a character class. *)
Inductive item :=
| Lit (c : ascii)
| CapPlus (cls : ascii -> bool)
| CapStar (cls : ascii -> bool).

(** Perl class \w: ASCII letters, digits and the underscore. *)
Definition word_char (c : ascii) : bool :=
  let n := nat_of_ascii c in
  (((48 <=? n) && (n <=? 57)) || ((65 <=? n) && (n <=? 90))
   || ((97 <=? n) && (n <=? 122)) || (n =? 95))%nat.

(** The dot: any character but the line feed (flag s is not set). *)
Definition any_char (c : ascii) : bool := negb (Ascii.eqb c newline).

(** Greedy repetition with backtracking: take as many characters of the
    class as possible, and give back one at a time while the continuation
    [k] fails.  [acc] is the text consumed so far. *)
Fixpoint greedy {R} (cls : ascii -> bool) (k : string -> string -> option R)
    (acc s : string) : option R :=
  match s with
  | String c s' =>
      if cls c then
        match greedy cls k (acc +:+ str c) s' with
        | Some r => Some r
        | None => k acc s
        end
      else k acc s
  | EmptyString => k acc s
  end.

(** Match the items at the start of [s]; on success the captures and the
    unconsumed rest. *)
Fixpoint match_here (items : list item) (s : string) (caps : list string)
    : option (list string * string) :=
  match items with
  | [] => Some (caps, s)
  | Lit c :: rest =>
      match s with
      | String c' s' => if Ascii.eqb c c' then match_here rest s' caps else None
      | EmptyString => None
      end
  | CapStar cls :: rest =>
      greedy cls (fun cap s' => match_here rest s' (caps ++ [cap])) EmptyString s
  | CapPlus cls :: rest =>
      match s with
      | String c s' =>
          if cls c then
            greedy cls (fun cap s' => match_here rest s' (caps ++ [cap])) (str c) s'
          else None
      | EmptyString => None
      end
  end.

(** Leftmost match: the first start position at which the items match.
    The result is nil when there is none, else the matched text followed by
    the text of each group. *)
Fixpoint find_from (items : list item) (s : string) : list string :=
  match match_here items s [] with
  | Some (caps, rest) =>
      substring 0 (String.length s - String.length rest) s :: caps
  | None =>
      match s with
      | String _ s' => find_from items s'
      | EmptyString => []
      end
  end.

Definition FindStringSubmatch (items : list item) (s : string) : list string :=
  find_from items s.

End regexp.

(* ===================================================================== *)
(** * Package go/ast, as far as the parser and the generator read it *)
(* ===================================================================== *)

Module ast.

(** A comment group: its comments' raw text ([List[i].Text], markers
    included) and what its method [Text()] returns. *)
Record CommentGroup := {
  CommentList : list string;
  CommentText : string;
}.

(** Expressions in type position, and fields of a field list.  [Doc] and
    [Names] may be absent ([nil], an empty slice). *)
Inductive Expr :=
| Ident (Name : string)
| StarExpr (X : Expr)
| SelectorExpr (X : Expr) (Sel : string)
| FuncType (Params : list Field)
| OtherExpr
with Field :=
| mkField (Doc : option CommentGroup) (Names : list string) (FType : Expr).

Definition Doc (f : Field) : option CommentGroup := let (d, _, _) := f in d.
Definition Names (f : Field) : list string := let (_, n, _) := f in n.
Definition FType (f : Field) : Expr := let (_, _, t) := f in t.

(** Method [Text] of a comment group accepts a nil receiver. *)
Definition Text (g : option CommentGroup) : string :=
  match g with
  | Some g => CommentText g
  | None => EmptyString
  end.

(** What [Parser.Visit] can tell apart in a node, and what it reads of it. *)
Inductive kind :=
| File
| TypeSpec (Name : string) (is_interface : bool)
| InterfaceType (Methods : list Field)
| Comment (text : string)
| Other.

(** A syntax tree: a node and its non-nil children in the order [ast.Walk]
    visits them. *)
Inductive Node := mkNode (k : kind) (children : list Node).

End ast.

(* ===================================================================== *)
(** * Package parse *)
(* ===================================================================== *)

Module parse.

Definition sync : string := "SYNC".
Definition async : string := "ASYNC".
Definition header : string := "HEADER".
Definition path : string := "PATH".
Definition query : string := "QUERY".
Definition field : string := "FIELD".
Definition part : string := "PART".
Definition httpMethodGet : string := "GET".
Definition httpMethodPost : string := "POST".
Definition httpMethodPostForm : string := "POST_FORM".
Definition httpMethodPut : string := "PUT".
Definition httpMethodDelete : string := "DELETE".
Definition httpMethodHead : string := "HEAD".

(** The annotation pattern: an at sign, a group of one or more word
    characters, an opening parenthesis and a quote, a group of any
    characters, a quote and a closing parenthesis. *)
Definition pattern : list regexp.item :=
  [ regexp.Lit "@"; regexp.CapPlus regexp.word_char; regexp.Lit "(";
    regexp.Lit quote; regexp.CapStar regexp.any_char; regexp.Lit quote;
    regexp.Lit ")" ].

Definition annotationTypes : gset string :=
  {[ field; header; part; path; query; sync; async ]}.

Definition httpMethods : gset string :=
  {[ httpMethodDelete; httpMethodGet; httpMethodHead; httpMethodPost;
     httpMethodPostForm; httpMethodPut ]}.

Record Annotation := mkAnnotation {
  Key : string;
  Value : string;
}.

Record ParseResult := mkParseResult {
  PackageName : string;
  RequestType : string;
  ApiEndpoint : string;
  HttpMethod : string;
  PathSubstitutions : gmap string ast.Field;
  QueryParams : gmap string ast.Field;
  PostFormParams : gmap string ast.Field;
  PostMultiPartParams : gmap string ast.Field;
  PostParams : gmap string ast.Field;
  HeaderParams : gmap string ast.Field;
  SyncResponse : option ast.Field;
  AsyncResponse : option ast.Field;
  CallbackType : string;
  ResponseType : string;
}.

Definition newParseResult (pkg : string) : ParseResult :=
  {| PackageName := pkg; RequestType := ""; ApiEndpoint := ""; HttpMethod := "";
     PathSubstitutions := ∅; QueryParams := ∅; PostFormParams := ∅;
     PostMultiPartParams := ∅; PostParams := ∅; HeaderParams := ∅;
     SyncResponse := None; AsyncResponse := None;
     CallbackType := ""; ResponseType := "" |}.

Record Parser := mkParser {
  file : ast.Node;
  result : ParseResult;
  buildRequest : bool;
}.

Definition NewParser (file : ast.Node) (pkg : string) : Parser :=
  {| file := file; result := newParseResult pkg; buildRequest := false |}.

Definition httpAnnotationFilter (s : string) : bool := bool_decide (s ∈ httpMethods).
Definition requestAnnotationFilter (s : string) : bool := bool_decide (s ∈ annotationTypes).

Definition extractAnnotation (filter : string -> bool) (s : string) : Annotation * bool :=
  let annotation := mkAnnotation "" "" in
  let valid := false in
  let match_ := regexp.FindStringSubmatch pattern s in
  if (length match_ =? 3) && filter (nth 1 match_ "") then
    (mkAnnotation (nth 1 match_ "") (nth 2 match_ ""), true)
  else (annotation, valid).

Definition ExtractHttpAnnotation (s : string) : Annotation * bool :=
  let '(annotation, valid) := extractAnnotation httpAnnotationFilter s in
  if String.eqb (Key annotation) httpMethodPostForm then
    (mkAnnotation httpMethodPost (Value annotation), valid)
  else (annotation, valid).

Definition ExtractRequestAnnotation (s : string) : Annotation * bool :=
  extractAnnotation requestAnnotationFilter s.

(** Assignments to the fields of the result. *)
Definition set_RequestType (v : string) (r : ParseResult) : ParseResult :=
  mkParseResult (PackageName r) v (ApiEndpoint r) (HttpMethod r)
    (PathSubstitutions r) (QueryParams r) (PostFormParams r) (PostMultiPartParams r)
    (PostParams r) (HeaderParams r) (SyncResponse r) (AsyncResponse r)
    (CallbackType r) (ResponseType r).
Definition set_Http (method endpoint : string) (r : ParseResult) : ParseResult :=
  mkParseResult (PackageName r) (RequestType r) endpoint method
    (PathSubstitutions r) (QueryParams r) (PostFormParams r) (PostMultiPartParams r)
    (PostParams r) (HeaderParams r) (SyncResponse r) (AsyncResponse r)
    (CallbackType r) (ResponseType r).
Definition set_PathSubstitutions (m : gmap string ast.Field) (r : ParseResult) :=
  mkParseResult (PackageName r) (RequestType r) (ApiEndpoint r) (HttpMethod r)
    m (QueryParams r) (PostFormParams r) (PostMultiPartParams r)
    (PostParams r) (HeaderParams r) (SyncResponse r) (AsyncResponse r)
    (CallbackType r) (ResponseType r).
Definition set_QueryParams (m : gmap string ast.Field) (r : ParseResult) :=
  mkParseResult (PackageName r) (RequestType r) (ApiEndpoint r) (HttpMethod r)
    (PathSubstitutions r) m (PostFormParams r) (PostMultiPartParams r)
    (PostParams r) (HeaderParams r) (SyncResponse r) (AsyncResponse r)
    (CallbackType r) (ResponseType r).
Definition set_PostFormParams (m : gmap string ast.Field) (r : ParseResult) :=
  mkParseResult (PackageName r) (RequestType r) (ApiEndpoint r) (HttpMethod r)
    (PathSubstitutions r) (QueryParams r) m (PostMultiPartParams r)
    (PostParams r) (HeaderParams r) (SyncResponse r) (AsyncResponse r)
    (CallbackType r) (ResponseType r).
Definition set_PostMultiPartParams (m : gmap string ast.Field) (r : ParseResult) :=
  mkParseResult (PackageName r) (RequestType r) (ApiEndpoint r) (HttpMethod r)
    (PathSubstitutions r) (QueryParams r) (PostFormParams r) m
    (PostParams r) (HeaderParams r) (SyncResponse r) (AsyncResponse r)
    (CallbackType r) (ResponseType r).
Definition set_HeaderParams (m : gmap string ast.Field) (r : ParseResult) :=
  mkParseResult (PackageName r) (RequestType r) (ApiEndpoint r) (HttpMethod r)
    (PathSubstitutions r) (QueryParams r) (PostFormParams r) (PostMultiPartParams r)
    (PostParams r) m (SyncResponse r) (AsyncResponse r)
    (CallbackType r) (ResponseType r).
Definition set_Sync (f : ast.Field) (v : string) (r : ParseResult) :=
  mkParseResult (PackageName r) (RequestType r) (ApiEndpoint r) (HttpMethod r)
    (PathSubstitutions r) (QueryParams r) (PostFormParams r) (PostMultiPartParams r)
    (PostParams r) (HeaderParams r) (Some f) (AsyncResponse r)
    (CallbackType r) v.
Definition set_Async (f : ast.Field) (v : string) (r : ParseResult) :=
  mkParseResult (PackageName r) (RequestType r) (ApiEndpoint r) (HttpMethod r)
    (PathSubstitutions r) (QueryParams r) (PostFormParams r) (PostMultiPartParams r)
    (PostParams r) (HeaderParams r) (SyncResponse r) (Some f)
    v (ResponseType r).

(** The switch on [annotation.Key] in the loop over the methods: [param]
    is the name of the method, [f] the method itself. *)
Definition route (annotation : Annotation) (param : string) (f : ast.Field)
    (r : ParseResult) : ParseResult :=
  let key := Key annotation in
  if String.eqb key field then set_PostFormParams (<[param := f]> (PostFormParams r)) r
  else if String.eqb key header then set_HeaderParams (<[param := f]> (HeaderParams r)) r
  else if String.eqb key part then
    set_PostMultiPartParams (<[param := f]> (PostMultiPartParams r)) r
  else if String.eqb key path then
    set_PathSubstitutions (<[param := f]> (PathSubstitutions r)) r
  else if String.eqb key query then set_QueryParams (<[param := f]> (QueryParams r)) r
  else if String.eqb key sync then set_Sync f (Value annotation) r
  else if String.eqb key async then set_Async f (Value annotation) r
  else r.

(** One turn of the loop over [methods.List]. *)
Definition visit_method (r : ParseResult) (f : ast.Field) : outcome ParseResult :=
  match ast.Doc f with
  | None => Panics nil_dereference
  | Some doc =>
      match ast.CommentList doc with
      | [] => Panics index_out_of_range
      | text :: _ =>
          let '(annotation, valid) := ExtractRequestAnnotation text in
          if negb valid then Returns r
          else
            match ast.Names f with
            | [] => Panics index_out_of_range
            | param :: _ => Returns (route annotation param f r)
            end
      end
  end.

Fixpoint visit_methods (r : ParseResult) (methods : list ast.Field) : outcome ParseResult :=
  match methods with
  | [] => Returns r
  | f :: rest => r' ← visit_method r f; visit_methods r' rest
  end.

Definition Visit (p : Parser) (node : ast.kind) : outcome Parser :=
  match node with
  | ast.File => Returns (mkParser (file p) (result p) false)
  | ast.TypeSpec name is_interface =>
      if is_interface then
        if buildRequest p then
          Returns (mkParser (file p) (set_RequestType name (result p)) (buildRequest p))
        else Returns (mkParser (file p) (result p) false)
      else Returns p
  | ast.InterfaceType methods =>
      if negb (buildRequest p) then Returns p
      else
        r ← visit_methods (result p) methods;
        Returns (mkParser (file p) r (buildRequest p))
  | ast.Comment text =>
      let '(annotation, valid) := ExtractHttpAnnotation text in
      if valid then
        Returns (mkParser (file p) (set_Http (Key annotation) (Value annotation) (result p)) true)
      else Returns p
  | ast.Other => Returns p
  end.

(** [ast.Walk]: visit the node, then walk its children in order.  The
    visitor returned by [Visit] is always the parser itself, so the walk
    always descends; the closing call with a nil node changes nothing. *)
Fixpoint Walk (p : Parser) (node : ast.Node) : outcome Parser :=
  let 'ast.mkNode k children := node in
  p1 ← Visit p k;
  (fix walk_children (p : Parser) (l : list ast.Node) : outcome Parser :=
     match l with
     | [] => Returns p
     | c :: l' => p' ← Walk p c; walk_children p' l'
     end) p1 children.

Definition Parse (p : Parser) : outcome ParseResult :=
  p' ← Walk p (file p); Returns (result p').

End parse.

(* ===================================================================== *)
(** * Go values returned with an error *)
(* ===================================================================== *)

Definition error : Type := string.

(** The pair (value, err) of a Go function: [Value a] is (a, nil), [Error e]
    is (nil, e). *)
Inductive returned (A : Type) : Type :=
| Value (a : A)
| Error (err : error).
Arguments Value {A} a.
Arguments Error {A} err.

(* ===================================================================== *)
(** * Packages net/url and net/http, as far as the builder uses them *)
(* ===================================================================== *)

Module http.

(** [url.Values] and [http.Header]: a map from a key to its values. *)
Abbreviation Values := (gmap string (list string)).

(** [Values.Add]: append the value to the values of the key. *)
Definition Add (key value : string) (v : Values) : Values :=
  <[key := default [] (v !! key) ++ [value]]> v.

Record URL := mkURL {
  Location : string;
  RawQuery : string;
}.

Record Request := mkRequest {
  Method : string;
  Url : URL;
  Body : option string;
  Header : Values;
}.

Definition set_RawQuery (q : string) (req : Request) : Request :=
  mkRequest (Method req) (mkURL (Location (Url req)) q) (Body req) (Header req).

(** What the Go libraries do for the builder and is not part of this
    repository: JSON marshalling of a body object, the encoding of
    [url.Values], the multipart writer, the checks of [http.NewRequest], the
    canonical form of a header key, and re-encoding a query string. *)
Record library (Payload : Type) := mkLibrary {
  json_Marshal : Payload -> returned string;
  Values_Encode : Values -> string;
  multipart_Write : list (string * string) -> returned string;
  validMethod : string -> bool;
  url_Parse : string -> returned URL;
  CanonicalMIMEHeaderKey : string -> string;
  Query_Encode : string -> string;
}.
Arguments json_Marshal {Payload}.
Arguments Values_Encode {Payload}.
Arguments multipart_Write {Payload}.
Arguments validMethod {Payload}.
Arguments url_Parse {Payload}.
Arguments CanonicalMIMEHeaderKey {Payload}.
Arguments Query_Encode {Payload}.

(** [http.NewRequest]: an empty method means GET; an invalid method or a
    URL that does not parse is an error. *)
Definition NewRequest {Payload} (L : library Payload)
    (method url : string) (body : option string) : returned Request :=
  let method := if String.eqb method "" then "GET" else method in
  if negb (validMethod L method) then Error "net/http: invalid method"
  else
    match url_Parse L url with
    | Error err => Error err
    | Value u => Value (mkRequest method u body ∅)
    end.

(** [Header.Set]: replace the values of the canonical key by the one value. *)
Definition Header_Set {Payload} (L : library Payload)
    (key value : string) (req : Request) : Request :=
  mkRequest (Method req) (Url req) (Body req)
    (<[CanonicalMIMEHeaderKey L key := [value]]> (Header req)).

End http.

(* ===================================================================== *)
(** * Package restclient *)
(* ===================================================================== *)

Module restclient.

(** The interface [Client] through the results of its methods;
    [HttpClient().Do] is the transport. *)
Record Client := mkClient {
  BaseURL : string;
  Debug : bool;
  Do : http.Request -> returned string;
}.

(** A value of the interface type is nil or a client. *)
Record ClientManager := mkClientManager {
  client : option Client;
}.

(** [init] *)
Definition clientManager : ClientManager := mkClientManager None.

Definition RegisterClient (c : option Client) (m : ClientManager) : ClientManager :=
  mkClientManager c.

Definition GetClient (m : ClientManager) : option Client := client m.

End restclient.

(* ===================================================================== *)
(** * Package generate: the template functions and the template *)
(* ===================================================================== *)

Module generate.

(** [getFunctionName]; the field may be a nil pointer. *)
Definition getFunctionName (f : option ast.Field) : outcome string :=
  match f with
  | None => Panics nil_dereference
  | Some f =>
      match ast.Names f with
      | [] => Panics index_out_of_range
      | name :: _ => Returns name
      end
  end.

(** [getAnnotationValue] *)
Definition getAnnotationValue (f : ast.Field) : outcome string :=
  let comment := ast.Text (ast.Doc f) in
  let '(annotation, valid) := parse.ExtractRequestAnnotation comment in
  if valid then Returns (parse.Value annotation)
  else Exits "Must have query or path or field parameter defined.".

(** [getParamType] *)
Fixpoint getParamType (e : ast.Expr) : outcome string :=
  match e with
  | ast.Ident name => Returns name
  | ast.StarExpr x => t ← getParamType x; Returns ("*" +:+ t)
  | ast.SelectorExpr x sel => t ← getParamType x; Returns (t +:+ "." +:+ sel)
  | _ => Exits "Unrecognized expression type"
  end.

(** The loop of [getParamsList] over [p.List]. *)
Fixpoint params_list (l : list ast.Field) : outcome string :=
  match l with
  | [] => Returns ""
  | f :: rest =>
      match ast.Names f with
      | [] => Panics index_out_of_range
      | name :: _ =>
          t ← getParamType (ast.FType f);
          let s := name +:+ " " +:+ t in
          match rest with
          | [] => Returns s
          | _ => tail ← params_list rest; Returns (s +:+ "," +:+ tail)
          end
      end
  end.

(** [getParamsList]; the template hands it the [Type] of a field, which
    has to be a function type for the call to go through. *)
Definition getParamsList (function : ast.Expr) : outcome string :=
  match function with
  | ast.FuncType p => params_list p
  | _ => Exits "wrong type for value; expected *ast.FuncType"
  end.

(** [getParamName] *)
Definition getParamName (function : ast.Expr) (forceString : bool) (index : nat)
    : outcome string :=
  match function with
  | ast.FuncType p =>
      if (length p =? 0)%nat then Exits "Function does not have any parameters"
      else
        match p !! index with
        | None => Exits "Illegal parameter index"
        | Some param =>
            match ast.Names param with
            | [] => Panics index_out_of_range
            | paramName :: _ =>
                Returns (if forceString
                         then "fmt.Sprintf(" +:+ str quote +:+ "%v" +:+ str quote
                              +:+ "," +:+ paramName +:+ ")"
                         else paramName)
            end
        end
  | _ => Exits "wrong type for value; expected *ast.FuncType"
  end.

(** ** What the template emits *)

(** The one statement of a setter before it returns the builder: an
    assignment to an entry of a map field, a call of [Add] on a field, or an
    assignment to a field.  [value] is the text of the argument expression. *)
Inductive statement :=
| IndexAssign (fld key value : string)
| AddCall (fld key value : string)
| Assign (fld value : string).

Record Setter := mkSetter {
  setter_name : string;
  setter_params : string;
  setter_body : statement;
}.

Record Callback := mkCallback {
  callback_name : string;
  callback_response : string;
}.

Record SyncWrapper := mkSyncWrapper {
  sync_name : string;
  sync_response : string;
}.

(** [async_runs] is the method the goroutine of the wrapper calls. *)
Record AsyncWrapper := mkAsyncWrapper {
  async_name : string;
  async_params : string;
  async_callback : string;
  async_runs : string;
}.

Record Output := mkOutput {
  package : string;
  callback : option Callback;
  impl : string;
  struct_fields : list (string * string);
  setters : list Setter;
  endpoint : string;
  method : string;
  sync_wrapper : option SyncWrapper;
  async_wrapper : option AsyncWrapper;
}.

(** The fields of the struct the template declares. *)
Definition impl_fields : list (string * string) :=
  [ ("pathSubstitutions", "map[string]string");
    ("queryParams", "url.Values");
    ("postFormParams", "url.Values");
    ("postBody", "interface{}");
    ("postMultiPartParam", "map[string][]byte");
    ("headerParams", "map[string]string") ].

(** A range over a map in a template visits the keys in sorted order. *)
Definition key_le (x y : string * ast.Field) : Prop := String.leb x.1 y.1 = true.
#[global] Instance key_le_dec x y : Decision (key_le x y).
Proof. unfold key_le. apply _. Defined.

Definition range (m : gmap string ast.Field) : list (string * ast.Field) :=
  merge_sort key_le (map_to_list m).

(** One turn of a range that emits a setter writing an entry or adding a
    value under the annotation value of the method. *)
Definition keyed_setter (stmt : string -> string -> string -> statement) (fld : string)
    (kv : string * ast.Field) : outcome Setter :=
  let '(key, value) := kv in
  params ← getParamsList (ast.FType value);
  annotation ← getAnnotationValue value;
  arg ← getParamName (ast.FType value) true 0;
  Returns (mkSetter key params (stmt fld annotation arg)).

(** One turn of the range over [PostParams]. *)
Definition body_setter (kv : string * ast.Field) : outcome Setter :=
  let '(key, value) := kv in
  params ← getParamsList (ast.FType value);
  arg ← getParamName (ast.FType value) false 0;
  Returns (mkSetter key params (Assign "postBody" arg)).

Fixpoint each {A B} (f : A -> outcome B) (l : list A) : outcome (list B) :=
  match l with
  | [] => Returns []
  | a :: l' => b ← f a; bs ← each f l'; Returns (b :: bs)
  end.

(** The truth of a pipeline value in an [if]: a string is true when it is
    not empty, a pointer when it is not nil. *)
Definition truth_string (s : string) : bool := negb (String.eqb s "").
Definition truth_field (f : option ast.Field) : bool := bool_decide (is_Some f).

(** The six ranges that emit the setters. *)
Definition emit_setters (r : parse.ParseResult) : outcome (list Setter) :=
  s1 ← each (keyed_setter IndexAssign "pathSubstitutions") (range (parse.PathSubstitutions r));
  s2 ← each (keyed_setter AddCall "queryParams") (range (parse.QueryParams r));
  s3 ← each (keyed_setter AddCall "postFormParams") (range (parse.PostFormParams r));
  s4 ← each body_setter (range (parse.PostParams r));
  s5 ← each (keyed_setter IndexAssign "headerParams") (range (parse.HeaderParams r));
  s6 ← each (keyed_setter IndexAssign "postMultiPartParams")
         (range (parse.PostMultiPartParams r));
  Returns (s1 ++ s2 ++ s3 ++ s4 ++ s5 ++ s6).

(** The sync wrapper, under [if and .ResponseType .SyncResponse]. *)
Definition emit_sync (r : parse.ParseResult) : outcome (option SyncWrapper) :=
  if truth_string (parse.ResponseType r) && truth_field (parse.SyncResponse r)
  then
    name ← getFunctionName (parse.SyncResponse r);
    Returns (Some (mkSyncWrapper name (parse.ResponseType r)))
  else Returns None.

(** The async wrapper, under [if and .CallbackType .AsyncResponse]; its
    goroutine calls the method named by [FunctionName] of [SyncResponse]. *)
Definition emit_async (r : parse.ParseResult) : outcome (option AsyncWrapper) :=
  if truth_string (parse.CallbackType r) && truth_field (parse.AsyncResponse r)
  then
    name ← getFunctionName (parse.AsyncResponse r);
    let type := from_option ast.FType ast.OtherExpr (parse.AsyncResponse r) in
    params ← getParamsList type;
    cbarg ← getParamName type false 0;
    runs ← getFunctionName (parse.SyncResponse r);
    Returns (Some (mkAsyncWrapper name params cbarg runs))
  else Returns None.

(** The callback type, under [if .CallbackType]. *)
Definition emit_callback (r : parse.ParseResult) : option Callback :=
  if truth_string (parse.CallbackType r)
  then Some (mkCallback (parse.CallbackType r) (parse.ResponseType r))
  else None.

(** [builderTemplate.Execute], section by section in the order of the
    template.  The outcome [Panics] stands for the panic of a template
    function: the template package recovers it where it calls the function
    and makes it the error that [Execute] returns.  The outcome [Exits] is
    the end of the process: a [log.Fatalf] inside a template function, or a
    call that the template package refuses for the type of its argument,
    whose error [Generate] answers with [log.Fatalf]. *)
Definition Execute (r : parse.ParseResult) : outcome Output :=
  let cb := emit_callback r in
  ss ← emit_setters r;
  sw ← emit_sync r;
  aw ← emit_async r;
  Returns (mkOutput (parse.PackageName r) cb (parse.RequestType r) impl_fields ss
             (parse.ApiEndpoint r) (parse.HttpMethod r) sw aw).


End generate.

(* ===================================================================== *)
(** * The generated builder *)
(* ===================================================================== *)

Module builder.

(** [strings.Replace(s, old, new, -1)] for a non-empty [old]: scanning from
    the left, every occurrence of [old] that does not overlap an earlier one
    is replaced.  [skip] counts the bytes of a replaced occurrence still to
    be passed over.  The builder only calls it with an [old] that starts
    with an opening brace. *)
Fixpoint replace_from (old new : string) (skip : nat) (s : string) : string :=
  match s with
  | EmptyString => EmptyString
  | String c s' =>
      match skip with
      | S k => replace_from old new k s'
      | O =>
          if has_prefix old s
          then new +:+ replace_from old new (String.length old - 1) s'
          else String c (replace_from old new 0 s')
      end
  end.

Definition Replace (s old new : string) : string := replace_from old new 0 s.

Definition missing_client : error :=
  "A rest client has not been registered yet. You must call client.RegisterClient first".

Section Impl.
Context {Payload : Type}.

(** The struct of the builder, with the fields and types the template
    declares; a byte slice is kept as the string of its bytes. *)
Record Impl := mkImpl {
  pathSubstitutions : gmap string string;
  queryParams : http.Values;
  postFormParams : http.Values;
  postBody : option Payload;
  postMultiPartParam : gmap string string;
  headerParams : gmap string string;
}.

(** The constructor. *)
Definition New : Impl := mkImpl ∅ ∅ ∅ None ∅ ∅.

(** The argument of a setter call: the text that [fmt.Sprintf] with verb v
    makes of it where the setter formats it, the object itself otherwise. *)
Inductive argument :=
| Formatted (text : string)
| Object (p : Payload).

(** Running the statement of a setter on the builder.  The field is looked
    up by its name among the fields of the struct; [None] stands for a
    statement the Go compiler rejects: the struct has no field of that name,
    or the field cannot take the value (a string stored in a map of byte
    slices or of string slices, [Add] on a field that is no [url.Values]). *)
Definition run_statement (s : generate.statement) (a : argument) (b : Impl)
    : option Impl :=
  match s, a with
  | generate.IndexAssign fld key _, Formatted v =>
      if String.eqb fld "pathSubstitutions" then
        Some (mkImpl (<[key := v]> (pathSubstitutions b)) (queryParams b)
                (postFormParams b) (postBody b) (postMultiPartParam b) (headerParams b))
      else if String.eqb fld "headerParams" then
        Some (mkImpl (pathSubstitutions b) (queryParams b) (postFormParams b)
                (postBody b) (postMultiPartParam b) (<[key := v]> (headerParams b)))
      else None
  | generate.AddCall fld key _, Formatted v =>
      if String.eqb fld "queryParams" then
        Some (mkImpl (pathSubstitutions b) (http.Add key v (queryParams b))
                (postFormParams b) (postBody b) (postMultiPartParam b) (headerParams b))
      else if String.eqb fld "postFormParams" then
        Some (mkImpl (pathSubstitutions b) (queryParams b)
                (http.Add key v (postFormParams b)) (postBody b)
                (postMultiPartParam b) (headerParams b))
      else None
  | generate.Assign fld _, Object p =>
      if String.eqb fld "postBody" then
        Some (mkImpl (pathSubstitutions b) (queryParams b) (postFormParams b)
                (Some p) (postMultiPartParam b) (headerParams b))
      else None
  | generate.Assign fld _, Formatted _ => None
  | _, Object _ => None
  end.

(** Calling a setter of the output. *)
Definition call (s : generate.Setter) (a : argument) (b : Impl) : option Impl :=
  run_statement (generate.setter_body s) a b.

(** A range over a Go map visits its entries in an order the language
    leaves open: the functions below take the order as a list, which is any
    arrangement of the entries of the map. *)
Definition visits {V} (order : list (string * V)) (m : gmap string V) : Prop :=
  order ≡ₚ map_to_list m.

Record schedule := mkSchedule {
  path_order : list (string * string);
  part_order : list (string * string);
  header_order : list (string * string);
}.

Definition schedule_of (sch : schedule) (b : Impl) : Prop :=
  visits (path_order sch) (pathSubstitutions b)
  /\ visits (part_order sch) (postMultiPartParam b)
  /\ visits (header_order sch) (headerParams b).

(** The loop of [applyPathSubstituions]. *)
Definition substitute (order : list (string * string)) (api : string) : string :=
  foldl (fun api kv => Replace api ("{" +:+ kv.1 +:+ "}") kv.2) api order.

Definition applyPathSubstituions (b : Impl) (order : list (string * string))
    (api : string) : string :=
  if (size (pathSubstitutions b) =? 0)%nat then api
  else substitute order api.

Context (L : http.library Payload).

(** The switch of [build] on the method: the request it makes, [None] when
    no branch assigns [req], or the error it returns. *)
Definition make_request (sch : schedule) (httpMethod url : string) (b : Impl)
    : returned (option http.Request) :=
  if String.eqb httpMethod "POST" || String.eqb httpMethod "PUT" then
    match postBody b with
    | Some body =>
        match http.json_Marshal L body with
        | Error err => Error err
        | Value contentBody =>
            match http.NewRequest L httpMethod url (Some contentBody) with
            | Error err => Error err
            | Value req =>
                Value (Some (http.Header_Set L "Content-Type" "application/json" req))
            end
        end
    | None =>
        if (0 <? size (postFormParams b))%nat then
          let contentForm := http.Values_Encode L (postFormParams b) in
          match http.NewRequest L httpMethod url (Some contentForm) with
          | Error err => Error err
          | Value req =>
              Value (Some (http.Header_Set L "Content-Type"
                             "application/x-www-form-urlencoded" req))
          end
        else if (0 <? size (postMultiPartParam b))%nat then
          match http.multipart_Write L (part_order sch) with
          | Error err => Error err
          | Value contentBody =>
              match http.NewRequest L httpMethod url (Some contentBody) with
              | Error err => Error err
              | Value req =>
                  Value (Some (http.Header_Set L "Content-Type" "multipart/form-data" req))
              end
          end
        else Value None
    end
  else if String.eqb httpMethod "GET" || String.eqb httpMethod "DELETE" then
    match http.NewRequest L httpMethod url None with
    | Error err => Error err
    | Value req =>
        Value (Some (if (0 <? size (queryParams b))%nat
                     then http.set_RawQuery (http.Values_Encode L (queryParams b)) req
                     else req))
    end
  else Value None.

(** The end of [build]: the Accept header, then the header entries. *)
Definition finish (sch : schedule) (req : http.Request) : http.Request :=
  foldl (fun req kv => http.Header_Set L kv.1 kv.2 req)
    (http.Header_Set L "Accept" "application/json" req) (header_order sch).

(** [build], for the endpoint and the method the template writes into it. *)
Definition build (cm : restclient.ClientManager) (endpoint httpMethod : string)
    (sch : schedule) (b : Impl) : outcome (returned http.Request) :=
  match restclient.GetClient cm with
  | None => Returns (Error missing_client)
  | Some restClient =>
      let url := restclient.BaseURL restClient
                 +:+ applyPathSubstituions b (path_order sch) endpoint in
      match make_request sch httpMethod url b with
      | Error err => Returns (Error err)
      | Value None => Panics nil_dereference
      | Value (Some req) => Returns (Value (finish sch req))
      end
  end.

(** The sync wrapper; [decode] is the constructor of the response type. *)
Definition run_sync {Response} (decode : string -> returned Response)
    (cm : restclient.ClientManager) (endpoint httpMethod : string)
    (sch : schedule) (b : Impl) : outcome (returned Response) :=
  r ← build cm endpoint httpMethod sch b;
  match r with
  | Error err => Returns (Error err)
  | Value request =>
      let request :=
        http.set_RawQuery (http.Query_Encode L (http.RawQuery (http.Url request))) request in
      match restclient.GetClient cm with
      | None => Returns (Error missing_client)
      | Some restClient =>
          match restclient.Do restClient request with
          | Error err => Returns (Error err)
          | Value body =>
              match decode body with
              | Error err => Returns (Error err)
              | Value result => Returns (Value result)
              end
          end
      end
  end.

End Impl.
Arguments Impl : clear implicits.
Arguments argument : clear implicits.

End builder.

(* ===================================================================== *)
(** * The earlier main programs *)
(* ===================================================================== *)

(** The program before the packages parse and generate were split off: its
    own extraction of annotations, on the same pattern and the same sets of
    keys. *)
Module main_v2.

Definition isAnnotationHttpMethod (s : string) : bool :=
  bool_decide (s ∈ parse.httpMethods).

(** [extractAnnotationValue] *)
Definition extractAnnotationValue (s paramType : string) : string * bool :=
  let match_ := regexp.FindStringSubmatch parse.pattern s in
  if (length match_ =? 3) && String.eqb (nth 1 match_ "") paramType
  then (nth 2 match_ "", true)
  else ("", false).

(** [extractHttpMethodTag] *)
Definition extractHttpMethodTag (s : string) : string * string :=
  let match_ := regexp.FindStringSubmatch parse.pattern s in
  if (length match_ =? 3) && isAnnotationHttpMethod (nth 1 match_ "") then
    let method := nth 1 match_ "" in
    let api := nth 2 match_ "" in
    (if String.eqb method parse.httpMethodPostForm then parse.httpMethodPost else method,
     api)
  else ("", "").

(** The loop of [getAnnotationValue] over the keys of [annotationTypes],
    in the order [order] in which the range visits them. *)
Fixpoint first_annotation (order : list string) (comment : string) : outcome string :=
  match order with
  | [] => Exits "Must have query or path or field parameter defined."
  | annotionType :: rest =>
      let '(key, valid) := extractAnnotationValue comment annotionType in
      if valid then Returns key else first_annotation rest comment
  end.

(** [getAnnotationValue] *)
Definition getAnnotationValue (order : list string) (f : ast.Field) : outcome string :=
  let comment := ast.Text (ast.Doc f) in
  first_annotation order comment.

End main_v2.

(** The first program: one extraction function for each kind of tag, and
    five HTTP methods. *)
Module main_v1.

Definition isAnnotationAsync (s : string) : bool := String.eqb s "ASYNC".
Definition isAnnotationSync (s : string) : bool := String.eqb s "SYNC".
Definition isAnnotationHttpMethod (s : string) : bool :=
  String.eqb s "GET" || String.eqb s "POST" || String.eqb s "PUT"
  || String.eqb s "HEAD" || String.eqb s "DELETE".

(** The shape the extraction functions share: the value of the match when
    the key passes the test, the empty string otherwise. *)
Definition extract (test : string -> bool) (s : string) : string :=
  let match_ := regexp.FindStringSubmatch parse.pattern s in
  if (length match_ =? 3) && test (nth 1 match_ "") then nth 2 match_ ""
  else "".

Definition extractSyncTag (s : string) : string := extract isAnnotationSync s.
Definition extractAsyncTag (s : string) : string := extract isAnnotationAsync s.
Definition extractQueryParam (s : string) : string :=
  extract (fun key => String.eqb key "QUERY") s.

(** [extractHttpMethodTag] *)
Definition extractHttpMethodTag (s : string) : string * string :=
  let match_ := regexp.FindStringSubmatch parse.pattern s in
  if (length match_ =? 3) && isAnnotationHttpMethod (nth 1 match_ "")
  then (nth 1 match_ "", nth 2 match_ "")
  else ("", "").

End main_v1.

(* ===================================================================== *)
(** * Vocabulary of the properties *)
(* ===================================================================== *)

(** ** Texts *)

(** Every character of the string is in the class. *)
Fixpoint all_chars (cls : ascii -> bool) (s : string) : bool :=
  match s with
  | EmptyString => true
  | String c s' => cls c && all_chars cls s'
  end.

(** The string does not start with a character of the class. *)
Definition stops (cls : ascii -> bool) (s : string) : bool :=
  match s with
  | EmptyString => true
  | String c _ => negb (cls c)
  end.

(** The text of an annotation with key [M] and value [p]. *)
Definition annotation_text (M p : string) : string :=
  "@" +:+ M +:+ "(" +:+ str quote +:+ p +:+ str quote +:+ ")".

(** What is left of the pattern after the key. *)
Definition after_key : list regexp.item :=
  [ regexp.Lit "("; regexp.Lit quote; regexp.CapStar regexp.any_char;
    regexp.Lit quote; regexp.Lit ")" ].

Definition no_annotation : parse.Annotation * bool := (parse.mkAnnotation "" "", false).

(** The malformed texts: no key, no opening quote, no closing quote, no
    parentheses. *)
Definition without_key (p : string) : string :=
  "@" +:+ "(" +:+ str quote +:+ p +:+ str quote +:+ ")".
Definition without_opening_quote (M p : string) : string :=
  "@" +:+ M +:+ "(" +:+ p +:+ str quote +:+ ")".
Definition without_closing_quote (M p : string) : string :=
  "@" +:+ M +:+ "(" +:+ str quote +:+ p +:+ ")".
Definition without_parentheses (M p : string) : string :=
  "@" +:+ M +:+ str quote +:+ p +:+ str quote.

(** ** Inputs *)

(** Request interfaces used as inputs below. *)
Module example.

(** A doc comment of one line that carries the annotation. *)
Definition doc (key value : string) : option ast.CommentGroup :=
  Some {| ast.CommentList := ["// " +:+ annotation_text key value];
          ast.CommentText := annotation_text key value +:+ str newline |}.

(** A method of one parameter: the annotation, the name of the method, the
    name and the type of the parameter. *)
Definition method (key value name param type : string) : ast.Field :=
  ast.mkField (doc key value) [name]
    (ast.FuncType [ast.mkField None [param] (ast.Ident type)]).

(** Method Data, annotated PART with the value data. *)
Definition Data : ast.Field := method "PART" "data" "Data" "d" "string".

(** Method RunAsync, annotated ASYNC with the name of the callback type. *)
Definition RunAsync : ast.Field :=
  method "ASYNC" "UploadCallback" "RunAsync" "callback" "UploadCallback".

(** Method Run without parameters, annotated SYNC. *)
Definition Run : ast.Field :=
  ast.mkField (doc "SYNC" "UploadResponse") ["Run"] (ast.FuncType []).

(** The node of a method in the tree: its comment group with its comments,
    its names and its type. *)
Definition field_node (f : ast.Field) : ast.Node :=
  ast.mkNode ast.Other
    (match ast.Doc f with
     | Some doc =>
         [ast.mkNode ast.Other
            ((fun c => ast.mkNode (ast.Comment c) []) <$> ast.CommentList doc)]
     | None => []
     end
     ++ ((fun _ => ast.mkNode ast.Other []) <$> ast.Names f)
     ++ [ast.mkNode ast.Other []]).

(** An interface type: the node that carries the methods, and under it the
    field list with the node of each method. *)
Definition interface (methods : list ast.Field) : ast.Node :=
  ast.mkNode (ast.InterfaceType methods) [ast.mkNode ast.Other (field_node <$> methods)].

(** A declaration of the type [name] under a one-line doc comment, as the
    Go parser builds it: the declaration, its comment group and comment, the
    type specification, the name and the type. *)
Definition type_decl (comment name : string) (is_interface : bool) (type : ast.Node)
    : ast.Node :=
  ast.mkNode ast.Other
    [ ast.mkNode ast.Other [ast.mkNode (ast.Comment comment) []];
      ast.mkNode (ast.TypeSpec name is_interface) [ast.mkNode ast.Other []; type] ].

(** A source file: the package name, then the declarations. *)
Definition source (decls : list ast.Node) : ast.Node :=
  ast.mkNode ast.File (ast.mkNode ast.Other [] :: decls).

(** The result of parsing the interface Upload under a POST annotation
    with the methods given. *)
Definition upload (methods : list ast.Field) : outcome parse.ParseResult :=
  parse.Parse
    (parse.NewParser
       (source [type_decl ("// " +:+ annotation_text "POST" "/upload") "Upload" true
                  (interface methods)])
       "test").

End example.

(** The request spec of the interface Upload with the method Run alone. *)
Definition upload_sync : parse.ParseResult :=
  parse.set_Sync example.Run "UploadResponse"
    (parse.set_RequestType "Upload"
       (parse.set_Http "POST" "/upload" (parse.newParseResult "test"))).

(** The request spec of the interface Upload with the methods Run and
    RunAsync, and the one with RunAsync alone. *)
Definition upload_sync_async : parse.ParseResult :=
  parse.set_Async example.RunAsync "UploadCallback"
    (parse.set_Sync example.Run "UploadResponse"
       (parse.set_RequestType "Upload"
          (parse.set_Http "POST" "/upload" (parse.newParseResult "test")))).


(** ** The maps of the request spec *)

(** The five maps of the request spec that are keyed, and the annotation
    key that fills each. *)
Inductive category := InPath | InQuery | InForm | InHeader | InPart.

Definition category_key (c : category) : string :=
  match c with
  | InPath => parse.path
  | InQuery => parse.query
  | InForm => parse.field
  | InHeader => parse.header
  | InPart => parse.part
  end.

Definition slot (c : category) (r : parse.ParseResult) : gmap string ast.Field :=
  match c with
  | InPath => parse.PathSubstitutions r
  | InQuery => parse.QueryParams r
  | InForm => parse.PostFormParams r
  | InHeader => parse.HeaderParams r
  | InPart => parse.PostMultiPartParams r
  end.

(** The walk routes the method [f] into the map of [c] under [name]: the
    first line of its doc comment is an annotation with the key of [c], and
    [name] is the name of the method. *)
Definition routed (f : ast.Field) (c : category) (name : string) : Prop :=
  exists doc text lines annotation names,
    ast.Doc f = Some doc /\ ast.CommentList doc = text :: lines
    /\ parse.ExtractRequestAnnotation text = (annotation, true)
    /\ parse.Key annotation = category_key c
    /\ ast.Names f = name :: names.

(** The method [f] is not called [name]. *)
Definition not_named (name : string) (f : ast.Field) : Prop :=
  head (ast.Names f) <> Some name.

(** Two methods that carry the same PATH annotation. *)
Definition PhotoID : ast.Field := example.method "PATH" "id" "PhotoID" "id" "string".
Definition OwnerID : ast.Field := example.method "PATH" "id" "OwnerID" "owner" "string".

Definition photo_and_owner : parse.ParseResult :=
  parse.set_PathSubstitutions {[ "PhotoID" := PhotoID; "OwnerID" := OwnerID ]}
    (parse.newParseResult "test").

(** ** The walk as a sequence of visits *)

(** The nodes of a tree in the order [ast.Walk] visits them. *)
Fixpoint preorder (node : ast.Node) : list ast.kind :=
  let 'ast.mkNode k children := node in
  k :: (fix all (l : list ast.Node) : list ast.kind :=
          match l with
          | [] => []
          | c :: l' => preorder c ++ all l'
          end) children.

Fixpoint visit_all (p : parse.Parser) (l : list ast.kind) : outcome parse.Parser :=
  match l with
  | [] => Returns p
  | k :: l' => p' ← parse.Visit p k; visit_all p' l'
  end.

Definition canonical_methods : list string := ["GET"; "POST"; "PUT"; "DELETE"; "HEAD"].



(** ** Endpoint templates *)

(** An endpoint template as a sequence of pieces of text and of tokens; the
    token of a key is the key between braces. *)
Inductive segment :=
| Text (s : string)
| Token (key : string).

Definition token (key : string) : string := "{" +:+ key +:+ "}".

Definition render_segment (g : segment) : string :=
  match g with
  | Text s => s
  | Token key => token key
  end.

Fixpoint render (t : list segment) : string :=
  match t with
  | [] => ""
  | g :: t' => render_segment g +:+ render t'
  end.

(** A text is plain when it has no opening brace; a key is plain when it
    has no brace at all. *)
Definition plain (s : string) : bool := negb (occurs "{" s).
Definition plain_key (k : string) : bool := negb (occurs "{" k) && negb (occurs "}" k).

Definition plain_segment (g : segment) : bool :=
  match g with
  | Text s => plain s
  | Token key => plain_key key
  end.

Definition plain_template (t : list segment) : bool := forallb plain_segment t.

(** The template with each token of a key of the map replaced by the value
    of the key, all at once; a token of another key stays. *)
Definition fill (m : gmap string string) (g : segment) : string :=
  match g with
  | Text s => s
  | Token key => default (token key) (m !! key)
  end.

Fixpoint filled (m : gmap string string) (t : list segment) : string :=
  match t with
  | [] => ""
  | g :: t' => fill m g +:+ filled m t'
  end.

(** One turn of the loop on a template: the tokens of the key become the
    value. *)
Definition replace_token (key value : string) (g : segment) : segment :=
  match g with
  | Text s => Text s
  | Token k => if String.eqb k key then Text value else Token k
  end.

(** The pairs are plain: the key has no brace and the value no opening
    brace. *)
Definition plain_entry (kv : string * string) : Prop :=
  plain_key kv.1 = true /\ plain kv.2 = true.

(** The turns of the loop on a template. *)
Definition replace_tokens (order : list (string * string)) (t : list segment)
    : list segment :=
  foldl (fun t kv => replace_token kv.1 kv.2 <$> t) t order.

(** ** Calls of setters *)

(** Calls of PATH setters, one after the other: the key of each setter and
    the text its argument is formatted to.  [e] is the text of the argument
    expression in the setter. *)
Fixpoint call_path_setters {Payload} (e : string) (calls : list (string * string))
    (b : builder.Impl Payload) : option (builder.Impl Payload) :=
  match calls with
  | [] => Some b
  | (key, value) :: calls' =>
      b' ← builder.run_statement (generate.IndexAssign "pathSubstitutions" key e)
             (builder.Formatted value) b;
      call_path_setters e calls' b'
  end.

Definition assign (m : gmap string string) (kv : string * string) : gmap string string :=
  <[kv.1 := kv.2]> m.

(** ** Annotations inside a text *)

(** What may follow an annotation on its line without changing the match:
    nothing, a line feed and anything after it, or a text without a quote. *)
Definition harmless (tail : string) : bool :=
  match tail with
  | EmptyString => true
  | String c _ => Ascii.eqb c newline || negb (occurs quote tail)
  end.

(** ** Trees and methods *)

(** The node is no comment with an HTTP annotation. *)
Definition unannotated (k : ast.kind) : Prop :=
  match k with
  | ast.Comment text => snd (parse.ExtractHttpAnnotation text) = false
  | _ => True
  end.

(** The first line of the doc comment of the method [f] is the parameter
    annotation [annotation], and [name] is the name of the method. *)
Definition annotated (f : ast.Field) (annotation : parse.Annotation) (name : string)
    : Prop :=
  exists doc text lines names,
    ast.Doc f = Some doc /\ ast.CommentList doc = text :: lines
    /\ parse.ExtractRequestAnnotation text = (annotation, true)
    /\ ast.Names f = name :: names.

(** The method is not annotated with the key. *)
Definition other_key (key : string) (g : ast.Field) : Prop :=
  forall annotation name, annotated g annotation name -> parse.Key annotation <> key.

(** What the walk has recorded for SYNC (when [is_sync]) or for ASYNC: the
    method, and the value of the annotation. *)
Definition response (is_sync : bool) (r : parse.ParseResult)
    : option ast.Field * string :=
  if is_sync then (parse.SyncResponse r, parse.ResponseType r)
  else (parse.AsyncResponse r, parse.CallbackType r).

Definition response_key (is_sync : bool) : string :=
  if is_sync then parse.sync else parse.async.

(** An interface without an annotation, with a method without a doc
    comment. *)
Definition plain_interface : ast.Node :=
  example.source
    [example.type_decl "// InvalidRequest has no annotation" "InvalidRequest" true
       (example.interface
          [ast.mkField None ["Op"]
             (ast.FuncType [ast.mkField None ["i"] (ast.Ident "int")])])].

(** The output of the template for a request spec in which nothing is
    recorded. *)
Definition empty_output (pkg : string) : generate.Output :=
  generate.mkOutput pkg None "" generate.impl_fields [] "" "" None None.

(** What the loop over the methods Run and RunAsync records in an empty
    request spec. *)
Definition run_and_async : parse.ParseResult :=
  parse.set_Async example.RunAsync "UploadCallback"
    (parse.set_Sync example.Run "UploadResponse" (parse.newParseResult "test")).

(** ** Parameter lists and setters *)

(** The text of one parameter in a parameter list: its first name, a space
    and its type. *)
Definition param_text (f : ast.Field) : outcome string :=
  match ast.Names f with
  | [] => Panics index_out_of_range
  | name :: _ => t ← generate.getParamType (ast.FType f); Returns (name +:+ " " +:+ t)
  end.

(** The keys of the six maps of the request spec, each map in the order of
    its range, in the order of the ranges of the template. *)
Definition ranged_keys (r : parse.ParseResult) : list string :=
  (generate.range (parse.PathSubstitutions r)).*1
  ++ (generate.range (parse.QueryParams r)).*1
  ++ (generate.range (parse.PostFormParams r)).*1
  ++ (generate.range (parse.PostParams r)).*1
  ++ (generate.range (parse.HeaderParams r)).*1
  ++ (generate.range (parse.PostMultiPartParams r)).*1.

(** ** Calls of the other setters *)

(** Calls of one setter, one after the other, with the arguments given. *)
Fixpoint call_all {Payload} (s : generate.statement)
    (args : list (builder.argument Payload)) (b : builder.Impl Payload)
    : option (builder.Impl Payload) :=
  match args with
  | [] => Some b
  | a :: rest => b' ← builder.run_statement s a b; call_all s rest b'
  end.

(** The two fields of the builder that hold [url.Values]: the query
    parameters (when [is_query]) and the form parameters. *)
Definition values_field (is_query : bool) : string :=
  if is_query then "queryParams" else "postFormParams".

Definition values_of {Payload} (is_query : bool) (b : builder.Impl Payload)
    : http.Values :=
  if is_query then builder.queryParams b else builder.postFormParams b.

(** A library for the inputs below: JSON of a text is the text, every
    method and every URL is accepted, header keys are taken as they are. *)
Definition plain_library : http.library string :=
  http.mkLibrary string Value (fun _ => "q") (fun _ => Value "m") (fun _ => true)
    (fun u => Value (http.mkURL u "")) id id.

Definition local_client : restclient.Client :=
  restclient.mkClient "http://localhost" false (fun _ => Value "{}").

(** The argument expression of a setter that formats its argument. *)
Definition formatted (paramName : string) : string :=
  "fmt.Sprintf(" +:+ str quote +:+ "%v" +:+ str quote +:+ "," +:+ paramName +:+ ")".

(** The parser after the walk over an interface with the PATH methods
    PhotoID and OwnerID, and a second interface with the PART method Data. *)
Definition after_photo_and_owner : parse.Parser :=
  parse.mkParser (example.interface [example.Data]) photo_and_owner true.

(* ===================================================================== *)
(** * Facts about strings *)
(* ===================================================================== *)

Lemma append_nil (b : string) : "" +:+ b = b.
Proof. reflexivity. Qed.

Lemma append_cons (x : ascii) (a b : string) : String x a +:+ b = String x (a +:+ b).
Proof. reflexivity. Qed.

Lemma append_assoc (a b c : string) : (a +:+ b) +:+ c = a +:+ (b +:+ c).
Proof.
  induction a as [|x a IH]; [reflexivity|].
  now rewrite !append_cons, IH.
Qed.

Lemma append_empty_r (a : string) : a +:+ "" = a.
Proof.
  induction a as [|x a IH]; [reflexivity|].
  now rewrite append_cons, IH.
Qed.

Lemma append_str (a : string) (c : ascii) (b : string) :
  (a +:+ str c) +:+ b = a +:+ String c b.
Proof. now rewrite append_assoc. Qed.

Lemma length_append (a b : string) :
  String.length (a +:+ b) = (String.length a + String.length b)%nat.
Proof.
  induction a as [|x a IH]; [reflexivity|].
  rewrite append_cons. simpl. now rewrite IH.
Qed.

Lemma substring_all (s : string) : substring 0 (String.length s) s = s.
Proof. induction s as [|x s IH]; simpl; [reflexivity | now rewrite IH]. Qed.

Lemma occurs_append (c : ascii) (a b : string) :
  occurs c (a +:+ b) = occurs c a || occurs c b.
Proof.
  induction a as [|x a IH]; [reflexivity|].
  rewrite append_cons. simpl. now rewrite IH, orb_assoc.
Qed.

Lemma all_chars_occurs (cls : ascii -> bool) (c : ascii) (s : string) :
  cls c = false -> all_chars cls s = true -> occurs c s = false.
Proof.
  intros Hc. induction s as [|x s IH]; simpl; [reflexivity|].
  intros [Hx Hs]%andb_prop. rewrite (IH Hs), orb_false_r.
  destruct (Ascii.eqb_spec c x) as [->|]; congruence.
Qed.

Lemma no_newline_any (s : string) :
  occurs newline s = false -> all_chars regexp.any_char s = true.
Proof.
  induction s as [|x s IH]; cbn [occurs all_chars]; [reflexivity|].
  intros [Hx Hs]%orb_false_elim. rewrite (IH Hs), andb_true_r.
  unfold regexp.any_char. now rewrite Ascii.eqb_sym, Hx.
Qed.

(* ===================================================================== *)
(** * The annotation pattern *)
(* ===================================================================== *)

Section Greedy.
Context {R : Type} (cls : ascii -> bool) (k : string -> string -> option R).

(** A success after the whole run [p] is the answer: the longest run is
    tried first. *)
Lemma greedy_longest (p t acc : string) (r : R) :
  all_chars cls p = true ->
  regexp.greedy cls k (acc +:+ p) t = Some r ->
  regexp.greedy cls k acc (p +:+ t) = Some r.
Proof.
  revert acc. induction p as [|c p IH]; intros acc Hp Hk.
  - now rewrite append_empty_r in Hk.
  - rewrite append_cons. simpl in *.
    apply andb_prop in Hp as [Hc Hp]. rewrite Hc.
    rewrite (IH (acc +:+ str c) Hp); [reflexivity|].
    now rewrite append_str.
Qed.

(** When the continuation refuses every text that starts inside the class,
    the run is taken whole. *)
Lemma greedy_run (p t acc : string) :
  all_chars cls p = true -> stops cls t = true ->
  (forall a c u, cls c = true -> k a (String c u) = None) ->
  regexp.greedy cls k acc (p +:+ t) = k (acc +:+ p) t.
Proof.
  intros Hp Ht Hk. revert acc. induction p as [|c p IH]; intros acc.
  - rewrite append_empty_r, append_nil. destruct t as [|c u]; simpl in *; [reflexivity|].
    destruct (cls c); [discriminate | reflexivity].
  - rewrite append_cons. simpl in *.
    apply andb_prop in Hp as [Hc Hp]. rewrite Hc, (IH Hp), append_str.
    destruct (k (acc +:+ String c p) t) eqn:E; [reflexivity|].
    now apply Hk.
Qed.

(** When the continuation refuses every text that misses the character
    [c] at its start, a subject without [c] has no match. *)
Lemma greedy_without (c : ascii) (s acc : string) :
  occurs c s = false ->
  (forall a, k a "" = None) ->
  (forall a x u, x <> c -> k a (String x u) = None) ->
  regexp.greedy cls k acc s = None.
Proof.
  intros Hs H0 Hk. revert acc. induction s as [|x s IH]; intros acc; simpl in *.
  - apply H0.
  - apply orb_false_elim in Hs as [Hx Hs].
    assert (k acc (String x s) = None) as ->.
    { apply Hk. intros ->. now rewrite Ascii.eqb_refl in Hx. }
    rewrite (IH Hs). now destruct (cls x).
Qed.

End Greedy.

Lemma match_lit c x s rest caps :
  regexp.match_here (regexp.Lit c :: rest) (String x s) caps
  = if Ascii.eqb c x then regexp.match_here rest s caps else None.
Proof. reflexivity. Qed.

Lemma match_lit_end c rest caps :
  regexp.match_here (regexp.Lit c :: rest) "" caps = None.
Proof. reflexivity. Qed.

Lemma match_plus cls x s rest caps :
  regexp.match_here (regexp.CapPlus cls :: rest) (String x s) caps
  = if cls x
    then regexp.greedy cls
           (fun cap s' => regexp.match_here rest s' (caps ++ [cap])) (str x) s
    else None.
Proof. reflexivity. Qed.

Lemma match_star cls s rest caps :
  regexp.match_here (regexp.CapStar cls :: rest) s caps
  = regexp.greedy cls (fun cap s' => regexp.match_here rest s' (caps ++ [cap])) "" s.
Proof. reflexivity. Qed.

Lemma match_after_key (M t : string) (c : ascii) (caps : list string) :
  all_chars regexp.word_char M = true -> stops regexp.word_char t = true ->
  forall rest,
  regexp.match_here (regexp.CapPlus regexp.word_char :: regexp.Lit "(" :: rest)
    (String c M +:+ t) caps
  = if regexp.word_char c
    then regexp.match_here (regexp.Lit "(" :: rest) t (caps ++ [String c M])
    else None.
Proof.
  intros HM Ht rest. rewrite append_cons, match_plus.
  destruct (regexp.word_char c) eqn:Hc; [|reflexivity].
  rewrite greedy_run; try assumption; [reflexivity|].
  intros a x u Hx. rewrite match_lit.
  destruct (Ascii.eqb_spec "(" x) as [<-|]; [discriminate | reflexivity].
Qed.

Lemma match_value (p : string) (caps : list string) :
  all_chars regexp.any_char p = true ->
  regexp.match_here
    [regexp.CapStar regexp.any_char; regexp.Lit quote; regexp.Lit ")"]
    (p +:+ str quote +:+ ")") caps
  = Some (caps ++ [p], "").
Proof.
  intros Hp. rewrite match_star. apply greedy_longest; [assumption|]. reflexivity.
Qed.

Lemma match_annotation_here (M p : string) :
  M <> "" -> all_chars regexp.word_char M = true -> occurs newline p = false ->
  regexp.match_here parse.pattern (annotation_text M p) [] = Some ([M; p], "").
Proof.
  intros HM Hw Hp. destruct M as [|c M]; [congruence|]. cbn [all_chars] in Hw.
  apply andb_prop in Hw as [Hc Hw].
  unfold annotation_text, parse.pattern.
  rewrite append_cons, append_nil, match_lit, Ascii.eqb_refl.
  rewrite match_after_key by (assumption || reflexivity).
  rewrite Hc, append_cons, append_nil, match_lit, Ascii.eqb_refl.
  unfold str at 1. rewrite append_cons, append_nil, match_lit, Ascii.eqb_refl.
  now rewrite match_value by now apply no_newline_any.
Qed.

Lemma find_from_here (s : string) (caps : list string) :
  regexp.match_here parse.pattern s [] = Some (caps, "") ->
  regexp.find_from parse.pattern s = s :: caps.
Proof.
  intros E. destruct s as [|x s]; cbn [regexp.find_from]; rewrite E; [reflexivity|].
  cbn [String.length]. rewrite Nat.sub_0_r. f_equal.
  apply (substring_all (String x s)).
Qed.

Lemma find_annotation (M p : string) :
  M <> "" -> all_chars regexp.word_char M = true -> occurs newline p = false ->
  regexp.FindStringSubmatch parse.pattern (annotation_text M p)
  = [annotation_text M p; M; p].
Proof.
  intros HM Hw Hp. apply find_from_here. now apply match_annotation_here.
Qed.

(** No match starts at a character other than the at sign. *)
Lemma match_needs_at (x : ascii) (s : string) :
  x <> "@"%char -> regexp.match_here parse.pattern (String x s) [] = None.
Proof.
  intros Hx. unfold parse.pattern. rewrite match_lit.
  destruct (Ascii.eqb_spec "@" x); congruence.
Qed.

Lemma find_without_at (s : string) :
  occurs "@" s = false -> regexp.find_from parse.pattern s = [].
Proof.
  induction s as [|x s IH]; cbn [occurs regexp.find_from]; [reflexivity|].
  intros [Hx Hs]%orb_false_elim. rewrite match_needs_at, (IH Hs); [reflexivity|].
  intros ->. discriminate.
Qed.

(** A text whose only at sign is the first character, and at which the
    pattern does not match, has no match. *)
Lemma find_only_at (s : string) :
  regexp.match_here parse.pattern (String "@" s) [] = None ->
  occurs "@" s = false ->
  regexp.FindStringSubmatch parse.pattern (String "@" s) = [].
Proof.
  intros E Hs. unfold regexp.FindStringSubmatch. cbn [regexp.find_from].
  rewrite E. now apply find_without_at.
Qed.

Lemma match_key (M t : string) :
  all_chars regexp.word_char M = true -> stops regexp.word_char t = true ->
  (M <> "" -> regexp.match_here after_key t [M] = None) ->
  regexp.match_here parse.pattern (String "@" (M +:+ t)) [] = None.
Proof.
  intros HM Ht E. unfold parse.pattern. rewrite match_lit, Ascii.eqb_refl.
  destruct M as [|c M].
  - rewrite append_nil. destruct t as [|x t]; [reflexivity|].
    rewrite match_plus. cbn [stops] in Ht. now destruct (regexp.word_char x).
  - cbn [all_chars] in HM. apply andb_prop in HM as [Hc HM].
    rewrite match_after_key by assumption. rewrite Hc. now apply E.
Qed.

(** The value and the closing quote and parenthesis cannot be found in a
    text without a quote. *)
Lemma match_value_without_quote (s : string) (caps : list string) :
  occurs quote s = false ->
  regexp.match_here
    [regexp.CapStar regexp.any_char; regexp.Lit quote; regexp.Lit ")"] s caps = None.
Proof.
  intros Hs. rewrite match_star. apply (greedy_without _ _ quote); [assumption|..].
  - intros a. apply match_lit_end.
  - intros a x u Hx. rewrite match_lit.
    destruct (Ascii.eqb_spec quote x); congruence.
Qed.

Lemma extract_nothing (filter : string -> bool) (s : string) :
  regexp.FindStringSubmatch parse.pattern s = [] ->
  parse.extractAnnotation filter s = no_annotation.
Proof. intros E. unfold parse.extractAnnotation. now rewrite E. Qed.

Lemma extract_http_nothing (s : string) :
  regexp.FindStringSubmatch parse.pattern s = [] ->
  parse.ExtractHttpAnnotation s = no_annotation.
Proof.
  intros E. unfold parse.ExtractHttpAnnotation.
  now rewrite (extract_nothing _ _ E).
Qed.

Lemma httpMethods_cases (M : string) :
  M ∈ parse.httpMethods ->
  M = "DELETE" \/ M = "GET" \/ M = "HEAD" \/ M = "POST" \/ M = "POST_FORM" \/ M = "PUT".
Proof. unfold parse.httpMethods. set_unfold. tauto. Qed.

Lemma extract_http_annotation (M p : string) :
  M <> "" -> all_chars regexp.word_char M = true -> occurs newline p = false ->
  parse.ExtractHttpAnnotation (annotation_text M p)
  = if parse.httpAnnotationFilter M
    then (parse.mkAnnotation (if String.eqb M "POST_FORM" then "POST" else M) p, true)
    else no_annotation.
Proof.
  intros HM Hw Hp. unfold parse.ExtractHttpAnnotation, parse.extractAnnotation.
  rewrite find_annotation by assumption. cbn [length nth Nat.eqb andb].
  destruct (parse.httpAnnotationFilter M); cbn [parse.Key parse.Value]; [|reflexivity].
  unfold parse.httpMethodPostForm, parse.httpMethodPost.
  now destruct (String.eqb M "POST_FORM").
Qed.

Ltac no_at_sign HM Hp :=
  rewrite ?occurs_append, ?Hp,
    ?(all_chars_occurs regexp.word_char "@" _ eq_refl HM); reflexivity.

Lemma without_key_none (p : string) :
  occurs "@" p = false -> parse.ExtractHttpAnnotation (without_key p) = no_annotation.
Proof.
  intros Hp. apply extract_http_nothing. unfold without_key.
  rewrite append_cons, append_nil. apply find_only_at; [|no_at_sign Hp Hp].
  now apply (match_key "").
Qed.

Lemma without_opening_quote_none (M p : string) :
  all_chars regexp.word_char M = true ->
  occurs "@" p = false -> occurs quote p = false ->
  parse.ExtractHttpAnnotation (without_opening_quote M p) = no_annotation.
Proof.
  intros HM Hp Hq. apply extract_http_nothing. unfold without_opening_quote.
  rewrite append_cons, append_nil. apply find_only_at; [|no_at_sign HM Hp].
  apply match_key; [assumption | reflexivity |]. intros _.
  unfold after_key. rewrite append_cons, append_nil, match_lit, Ascii.eqb_refl.
  destruct p as [|x p].
  - rewrite append_nil. unfold str. rewrite append_cons, match_lit, Ascii.eqb_refl.
    now apply match_value_without_quote.
  - rewrite append_cons, match_lit. cbn [occurs] in Hq.
    apply orb_false_elim in Hq as [Hx _]. now rewrite Hx.
Qed.

Lemma without_closing_quote_none (M p : string) :
  all_chars regexp.word_char M = true ->
  occurs "@" p = false -> occurs quote p = false ->
  parse.ExtractHttpAnnotation (without_closing_quote M p) = no_annotation.
Proof.
  intros HM Hp Hq. apply extract_http_nothing. unfold without_closing_quote.
  rewrite append_cons, append_nil. apply find_only_at; [|no_at_sign HM Hp].
  apply match_key; [assumption | reflexivity |]. intros _.
  unfold after_key. rewrite append_cons, append_nil, match_lit, Ascii.eqb_refl.
  unfold str. rewrite append_cons, append_nil, match_lit, Ascii.eqb_refl.
  apply match_value_without_quote. now rewrite occurs_append, Hq.
Qed.

Lemma without_parentheses_none (M p : string) :
  all_chars regexp.word_char M = true -> occurs "@" p = false ->
  parse.ExtractHttpAnnotation (without_parentheses M p) = no_annotation.
Proof.
  intros HM Hp. apply extract_http_nothing. unfold without_parentheses.
  rewrite append_cons, append_nil. apply find_only_at; [|no_at_sign HM Hp].
  apply match_key; [assumption | reflexivity |]. intros _.
  unfold after_key, str. now rewrite append_cons, match_lit.
Qed.

(** C9, as amended: for a key M among GET, POST, POST_FORM, PUT, DELETE and
    HEAD and a value p without a line feed, extraction of the HTTP annotation
    from the text of the annotation (an at sign, M, p between quotes between
    parentheses) returns M, with POST_FORM turned into POST, and p, also for
    an empty p; for a key of word characters outside this set it returns no
    match; so it does for a text without an at sign, and for the malformed
    texts without a key, without the opening or the closing quote, and
    without the parentheses, when p holds no at sign (and no quote, for a
    missing quote).  The result is a pair in every case, never an error. *)
Theorem ExtractHttpAnnotation_annotation_forms :
  (forall M p, M ∈ parse.httpMethods -> occurs newline p = false ->
     parse.ExtractHttpAnnotation (annotation_text M p)
     = (parse.mkAnnotation (if String.eqb M "POST_FORM" then "POST" else M) p, true))
  /\ (forall M p, M <> "" -> all_chars regexp.word_char M = true ->
        M ∉ parse.httpMethods -> occurs newline p = false ->
        parse.ExtractHttpAnnotation (annotation_text M p) = no_annotation)
  /\ (forall s, occurs "@" s = false -> parse.ExtractHttpAnnotation s = no_annotation)
  /\ (forall p, occurs "@" p = false ->
        parse.ExtractHttpAnnotation (without_key p) = no_annotation)
  /\ (forall M p, all_chars regexp.word_char M = true ->
        occurs "@" p = false -> occurs quote p = false ->
        parse.ExtractHttpAnnotation (without_opening_quote M p) = no_annotation
        /\ parse.ExtractHttpAnnotation (without_closing_quote M p) = no_annotation)
  /\ (forall M p, all_chars regexp.word_char M = true -> occurs "@" p = false ->
        parse.ExtractHttpAnnotation (without_parentheses M p) = no_annotation).
Proof.
  repeat split.
  - intros M p HM Hp.
    assert (M <> "" /\ all_chars regexp.word_char M = true) as [Hne Hw].
    { destruct (httpMethods_cases M HM) as [-> | [-> | [-> | [-> | [-> | ->]]]]]; now split. }
    rewrite extract_http_annotation by assumption.
    unfold parse.httpAnnotationFilter. now rewrite bool_decide_eq_true_2.
  - intros M p Hne Hw HM Hp. rewrite extract_http_annotation by assumption.
    unfold parse.httpAnnotationFilter. now rewrite bool_decide_eq_false_2.
  - intros s Hs. apply extract_http_nothing. now apply find_without_at.
  - apply without_key_none.
  - now apply without_opening_quote_none.
  - now apply without_closing_quote_none.
  - apply without_parentheses_none.
Qed.

(** The amended C9 at the texts of the tests of the package. *)
Lemma ExtractHttpAnnotation_annotation_forms_witness :
  parse.ExtractHttpAnnotation (annotation_text "POST_FORM" "/test")
  = (parse.mkAnnotation "POST" "/test", true)
  /\ parse.ExtractHttpAnnotation (annotation_text "GET" "")
     = (parse.mkAnnotation "GET" "", true)
  /\ parse.ExtractHttpAnnotation (annotation_text "SYNC" "/test") = no_annotation
  /\ parse.ExtractHttpAnnotation (without_key "/test") = no_annotation
  /\ parse.ExtractHttpAnnotation (without_parentheses "GET" "/test") = no_annotation.
Proof.
  destruct ExtractHttpAnnotation_annotation_forms as (H1 & H2 & _ & H4 & _ & H6).
  split; [|split; [|split; [|split]]].
  - apply (H1 "POST_FORM" "/test"); [vm_compute; reflexivity | reflexivity].
  - apply (H1 "GET" ""); [vm_compute; reflexivity | reflexivity].
  - apply (H2 "SYNC" "/test"); [discriminate | reflexivity | | reflexivity].
    intros H. apply httpMethods_cases in H.
    destruct H as [H|[H|[H|[H|[H|H]]]]]; discriminate H.
  - apply (H4 "/test"). reflexivity.
  - apply (H6 "GET" "/test"); reflexivity.
Defined.

(** C9 as stated fails at a value with a line feed: the text of the
    annotation with key GET and the value of one line feed has the exact
    form, and extraction returns no match instead of the key and the value. *)
Lemma ExtractHttpAnnotation_line_feed :
  parse.ExtractHttpAnnotation (annotation_text "GET" (str newline)) = no_annotation
  /\ parse.ExtractHttpAnnotation (annotation_text "GET" (str newline))
     <> (parse.mkAnnotation "GET" (str newline), true).
Proof. split; [vm_compute; reflexivity | vm_compute; discriminate]. Qed.

(* ===================================================================== *)
(** * The client registry and the build routine *)
(* ===================================================================== *)

Section Build.
Context {Payload : Type} (L : http.library Payload).
Implicit Types (b : builder.Impl Payload) (sch : builder.schedule)
  (cm : restclient.ClientManager) (c : restclient.Client).

(** C10: no client is registered at first, and then the build routine and
    the sync wrapper return the error that names the missing registration,
    without a panic; after a registration the registry returns the client
    that was registered last. *)
Theorem build_without_client :
  restclient.GetClient restclient.clientManager = None
  /\ (forall cm endpoint httpMethod sch b,
        restclient.GetClient cm = None ->
        builder.build L cm endpoint httpMethod sch b
        = Returns (Error builder.missing_client))
  /\ (forall (Response : Type) (decode : string -> returned Response)
        cm endpoint httpMethod sch b,
        restclient.GetClient cm = None ->
        builder.run_sync L decode cm endpoint httpMethod sch b
        = Returns (Error builder.missing_client))
  /\ (forall (registered : option restclient.Client) cm,
        restclient.GetClient (restclient.RegisterClient registered cm) = registered).
Proof.
  repeat split.
  - intros cm endpoint httpMethod sch b E. unfold builder.build. now rewrite E.
  - intros Response decode cm endpoint httpMethod sch b E.
    unfold builder.run_sync, builder.build. now rewrite E.
Qed.

(** The switch of the build routine has no branch for HEAD. *)
Lemma make_request_HEAD sch url b :
  builder.make_request L sch "HEAD" url b = Value None.
Proof. reflexivity. Qed.

(** C2 fails for HEAD: with a client registered, the build routine of a HEAD
    builder assigns no request and then sets a header through the nil
    request. *)
Theorem build_HEAD_panics c cm endpoint sch b :
  builder.build L (restclient.RegisterClient (Some c) cm) endpoint "HEAD" sch b
  = Panics nil_dereference.
Proof. reflexivity. Qed.

(** For GET and DELETE the switch does what C2 says: a request without a
    body, with the encoded query parameters as its query when there are
    any; the end of the routine sets the Accept header and the header
    entries. *)
Lemma build_GET_DELETE c cm endpoint httpMethod sch b u :
  httpMethod = "GET" \/ httpMethod = "DELETE" ->
  http.validMethod L httpMethod = true ->
  http.url_Parse L (restclient.BaseURL c
               +:+ builder.applyPathSubstituions b (builder.path_order sch) endpoint)
  = Value u ->
  let req := http.mkRequest httpMethod u None ∅ in
  builder.build L (restclient.RegisterClient (Some c) cm) endpoint httpMethod sch b
  = Returns (Value (builder.finish L sch
                      (if (0 <? size (builder.queryParams b))%nat
                       then http.set_RawQuery
                              (http.Values_Encode L (builder.queryParams b)) req
                       else req))).
Proof.
  intros Hm Hv Hu. unfold builder.build, builder.make_request, http.NewRequest.
  cbn [restclient.GetClient restclient.RegisterClient restclient.client].
  destruct Hm as [-> | ->]; cbn [String.eqb Ascii.eqb Bool.eqb orb]; cbn beta iota;
    rewrite Hv, Hu; reflexivity.
Qed.

(** C5 fails in its last case: with a client registered, the build routine
    of a POST or PUT builder that has no body object, no form parameter and
    no multipart parameter assigns no request and then sets a header through
    the nil request. *)
Theorem build_POST_nothing_set_panics c cm endpoint sch
    (paths headers : gmap string string) (queries : http.Values) :
  builder.build L (restclient.RegisterClient (Some c) cm) endpoint "POST" sch
    (builder.mkImpl paths queries ∅ None ∅ headers)
  = Panics nil_dereference
  /\ builder.build L (restclient.RegisterClient (Some c) cm) endpoint "PUT" sch
       (builder.mkImpl paths queries ∅ None ∅ headers)
     = Panics nil_dereference.
Proof. split; reflexivity. Qed.

(** The three cases of C5 that hold: a body object wins over form and
    multipart parameters, form parameters win over multipart parameters. *)
Lemma make_request_precedence sch httpMethod url b :
  httpMethod = "POST" \/ httpMethod = "PUT" ->
  builder.make_request L sch httpMethod url b
  = match builder.postBody b with
    | Some body =>
        match http.json_Marshal L body with
        | Error err => Error err
        | Value content =>
            match http.NewRequest L httpMethod url (Some content) with
            | Error err => Error err
            | Value req =>
                Value (Some (http.Header_Set L "Content-Type" "application/json" req))
            end
        end
    | None =>
        if (0 <? size (builder.postFormParams b))%nat then
          match http.NewRequest L httpMethod url
                  (Some (http.Values_Encode L (builder.postFormParams b))) with
          | Error err => Error err
          | Value req =>
              Value (Some (http.Header_Set L "Content-Type"
                             "application/x-www-form-urlencoded" req))
          end
        else if (0 <? size (builder.postMultiPartParam b))%nat then
          match http.multipart_Write L (builder.part_order sch) with
          | Error err => Error err
          | Value content =>
              match http.NewRequest L httpMethod url (Some content) with
              | Error err => Error err
              | Value req =>
                  Value (Some (http.Header_Set L "Content-Type" "multipart/form-data" req))
              end
          end
        else Value None
    end.
Proof. intros [-> | ->]; reflexivity. Qed.

End Build.

(** C10 at the registry as [init] leaves it. *)
Lemma build_without_client_witness :
  builder.build (Payload := string)
    (http.mkLibrary string Value (fun _ => "") (fun _ => Value "") (fun _ => true)
       (fun u => Value (http.mkURL u "")) id id)
    restclient.clientManager "/photos" "GET"
    (builder.mkSchedule [] [] []) builder.New
  = Returns (Error builder.missing_client).
Proof.
  refine (proj1 (proj2 (build_without_client _)) _ _ _ _ _ _). reflexivity.
Defined.

(* ===================================================================== *)
(** * The template *)
(* ===================================================================== *)

(** A setter emitted for an entry of a keyed map has the statement of its
    range on the field of its range: for a PART entry an assignment to an
    entry of the field postMultiPartParams, whatever the entry. *)
Lemma keyed_setter_body (stmt : string -> string -> string -> generate.statement)
    (fld : string) (kv : string * ast.Field) (s : generate.Setter) :
  generate.keyed_setter stmt fld kv = Returns s ->
  exists key value, generate.setter_body s = stmt fld key value.
Proof.
  destruct kv as [k f]. unfold generate.keyed_setter.
  destruct (generate.getParamsList _); try discriminate. cbn.
  destruct (generate.getAnnotationValue _); try discriminate. cbn.
  destruct (generate.getParamName _ _ _); try discriminate. cbn.
  intros [= <-]. cbn. eauto.
Qed.

(** A statement on that field does not compile against the struct of the
    builder, which names its field postMultiPartParam. *)
Lemma part_statement_rejected {Payload} key value (a : builder.argument Payload) b :
  builder.run_statement (generate.IndexAssign "postMultiPartParams" key value) a b = None.
Proof. now destruct a. Qed.

(** C3 fails: for the interface with the one method Data, annotated PART,
    the walk records the method and the template emits one setter; the
    setter assigns to the field postMultiPartParams, the struct has no field
    of that name (the build routine reads postMultiPartParam), and no call
    of the setter changes a builder. *)
Theorem part_setter_misses_field :
  exists r s,
    example.upload [example.Data] = Returns r
    /\ parse.PostMultiPartParams r !! "Data" = Some example.Data
    /\ generate.emit_setters r = Returns [s]
    /\ generate.setter_name s = "Data"
    /\ generate.setter_body s
       = generate.IndexAssign "postMultiPartParams" "data"
           ("fmt.Sprintf(" +:+ str quote +:+ "%v" +:+ str quote +:+ ",d)")
    /\ ("postMultiPartParams" ∉ fst <$> generate.impl_fields)
    /\ ("postMultiPartParam" ∈ fst <$> generate.impl_fields)
    /\ forall (a : builder.argument string) (b : builder.Impl string),
         builder.call s a b = None.
Proof.
  eexists _, _. split; [vm_compute; reflexivity|].
  split; [vm_compute; reflexivity|].
  split; [vm_compute; reflexivity|].
  split; [reflexivity|]. split; [reflexivity|].
  split; [|split].
  - cbn. rewrite !elem_of_cons, elem_of_nil. intros H. repeat destruct H as [H|H]; discriminate || done.
  - cbn. rewrite !elem_of_cons. auto 10.
  - intros a b. apply part_statement_rejected.
Qed.


Lemma truth_string_false (s : string) : s = "" -> generate.truth_string s = false.
Proof. now intros ->. Qed.

Lemma upload_sync_async_parsed :
  example.upload [example.Run; example.RunAsync] = Returns upload_sync_async.
Proof. vm_compute. reflexivity. Qed.


Lemma truth_field_Some (f : ast.Field) : generate.truth_field (Some f) = true.
Proof. reflexivity. Qed.

Lemma truth_field_None : generate.truth_field None = false.
Proof. reflexivity. Qed.

Lemma upload_sync_parsed :
  example.upload [example.Run] = Returns upload_sync.
Proof. vm_compute. reflexivity. Qed.





(* ===================================================================== *)
(** * The walk *)
(* ===================================================================== *)

Lemma bind_Returns {A B} (m : outcome A) (k : A -> outcome B) (b : B) :
  m ≫= k = Returns b -> exists a, m = Returns a /\ k a = Returns b.
Proof. destruct m; cbn; [eauto | discriminate | discriminate]. Qed.

Lemma route_category (annotation : parse.Annotation) (c : category)
    (name : string) (f : ast.Field) (r : parse.ParseResult) :
  parse.Key annotation = category_key c ->
  slot c (parse.route annotation name f r) = <[name := f]> (slot c r).
Proof.
  intros E. unfold parse.route. rewrite E. now destruct c.
Qed.

Lemma route_other (annotation : parse.Annotation) (c : category)
    (name n : string) (f : ast.Field) (r : parse.ParseResult) :
  name <> n ->
  slot c (parse.route annotation name f r) !! n = slot c r !! n.
Proof.
  intros Hn. unfold parse.route.
  repeat (match goal with
          | |- context [if ?b then _ else _] => destruct b
          end);
    destruct c; cbn; try reflexivity; now apply lookup_insert_ne.
Qed.

Lemma visit_method_routed (r : parse.ParseResult) (f : ast.Field)
    (c : category) (name : string) :
  routed f c name ->
  exists r', parse.visit_method r f = Returns r'
             /\ slot c r' = <[name := f]> (slot c r).
Proof.
  intros (doc & text & lines & annotation & names & Hd & Hl & He & Hk & Hn).
  unfold parse.visit_method. rewrite Hd, Hl, He, Hn. cbn.
  eexists; split; [reflexivity|]. now apply route_category.
Qed.

Lemma visit_method_keeps (r r' : parse.ParseResult) (g : ast.Field)
    (c : category) (n : string) :
  parse.visit_method r g = Returns r' -> not_named n g ->
  slot c r' !! n = slot c r !! n.
Proof.
  unfold parse.visit_method, not_named.
  destruct (ast.Doc g) as [doc|]; [|discriminate].
  destruct (ast.CommentList doc) as [|text lines]; [discriminate|].
  destruct (parse.ExtractRequestAnnotation text) as [annotation [|]]; cbn.
  - destruct (ast.Names g) as [|name names]; [discriminate|].
    intros [= <-] Hn. apply route_other. cbn in Hn. congruence.
  - now intros [= <-].
Qed.

Lemma visit_methods_keeps (ms : list ast.Field) (r r' : parse.ParseResult)
    (c : category) (n : string) :
  parse.visit_methods r ms = Returns r' -> Forall (not_named n) ms ->
  slot c r' !! n = slot c r !! n.
Proof.
  revert r. induction ms as [|g ms IH]; intros r; cbn [parse.visit_methods].
  - now intros [= <-].
  - intros (r1 & H1 & H2)%bind_Returns [Hg Hms]%Forall_cons.
    rewrite (IH _ H2 Hms). now apply (visit_method_keeps r r1 g).
Qed.

Lemma visit_method_keys (r r' : parse.ParseResult) (g : ast.Field)
    (c : category) (k : string) :
  parse.visit_method r g = Returns r' -> is_Some (slot c r' !! k) ->
  is_Some (slot c r !! k) \/ head (ast.Names g) = Some k.
Proof.
  intros Hv Hk. destruct (decide (head (ast.Names g) = Some k)) as [|Hn]; [now right|].
  left. now rewrite <- (visit_method_keeps r r' g c k Hv Hn).
Qed.

Lemma visit_methods_keys (ms : list ast.Field) (r r' : parse.ParseResult)
    (c : category) (k : string) :
  parse.visit_methods r ms = Returns r' -> is_Some (slot c r' !! k) ->
  is_Some (slot c r !! k) \/ exists g, g ∈ ms /\ head (ast.Names g) = Some k.
Proof.
  revert r. induction ms as [|g ms IH]; intros r; cbn [parse.visit_methods].
  - intros [= <-]. now left.
  - intros (r1 & H1 & H2)%bind_Returns Hk.
    destruct (IH r1 H2 Hk) as [Hk1 | (g' & Hin & Hg')].
    + destruct (visit_method_keys r r1 g c k H1 Hk1) as [|Hg]; [now left|].
      right. exists g. split; [apply list_elem_of_here | assumption].
    + right. exists g'. split; [now apply list_elem_of_further | assumption].
Qed.

(** C1, as amended: a method routed under PATH, QUERY, FIELD, HEADER or
    PART is stored in the map of its annotation under the name of the
    method, not under the value of the annotation: when no method visited
    later has the same name, the entry is still there at the end of the
    loop, whatever the values of the annotations of the later methods, and
    every key the loop adds to the map is the name of a method. *)
Theorem methods_keyed_by_name (ms before after : list ast.Field) (f : ast.Field)
    (c : category) (name : string) (r r' : parse.ParseResult) :
  ms = before ++ f :: after ->
  routed f c name ->
  Forall (not_named name) after ->
  parse.visit_methods r ms = Returns r' ->
  slot c r' !! name = Some f
  /\ forall k, is_Some (slot c r' !! k) ->
       is_Some (slot c r !! k) \/ exists g, g ∈ ms /\ head (ast.Names g) = Some k.
Proof.
  intros -> Hf Hafter Hv. split; [|intros k; now apply visit_methods_keys].
  revert r Hv.
  induction before as [|g before IH]; intros r; cbn [app parse.visit_methods].
  - intros (r1 & H1 & H2)%bind_Returns.
    destruct (visit_method_routed r f c name Hf) as (r1' & H1' & Hs).
    rewrite H1 in H1'. injection H1' as <-.
    rewrite (visit_methods_keeps _ _ _ c name H2 Hafter), Hs.
    apply lookup_insert_eq.
  - intros (r1 & H1 & H2)%bind_Returns. now apply (IH r1).
Qed.

Lemma photo_and_owner_visited :
  parse.visit_methods (parse.newParseResult "test") [PhotoID; OwnerID]
  = Returns photo_and_owner.
Proof. vm_compute. reflexivity. Qed.

Lemma PhotoID_routed : routed PhotoID InPath "PhotoID".
Proof.
  do 5 eexists. repeat split; reflexivity.
Defined.

(** The amended C1 at the two methods: the first one stays under its name
    although the second one has the same annotation value. *)
Lemma methods_keyed_by_name_witness :
  slot InPath photo_and_owner !! "PhotoID" = Some PhotoID.
Proof.
  refine (proj1 (methods_keyed_by_name [PhotoID; OwnerID] [] [OwnerID] PhotoID InPath
                   "PhotoID" (parse.newParseResult "test") photo_and_owner
                   eq_refl PhotoID_routed _ photo_and_owner_visited)).
  repeat constructor. unfold not_named. cbn. discriminate.
Defined.

(** C1 as stated fails: after the walk over the two methods, both annotated
    PATH with the value id, the map has no entry under id; the entries are
    under the names of the methods, and the later method has not replaced
    the earlier one. *)
Lemma same_value_not_overwritten :
  parse.visit_methods (parse.newParseResult "test") [PhotoID; OwnerID]
  = Returns photo_and_owner
  /\ parse.PathSubstitutions photo_and_owner !! "id" = None
  /\ parse.PathSubstitutions photo_and_owner !! "PhotoID" = Some PhotoID
  /\ parse.PathSubstitutions photo_and_owner !! "OwnerID" = Some OwnerID.
Proof.
  split; [exact photo_and_owner_visited|]. repeat split; vm_compute; reflexivity.
Qed.

(** A method whose doc comment starts with a line without a parameter
    annotation is dropped: the request spec stays as it is. *)
Lemma visit_method_dropped (r : parse.ParseResult) (f : ast.Field)
    (doc : ast.CommentGroup) (text : string) (lines : list string) :
  ast.Doc f = Some doc -> ast.CommentList doc = text :: lines ->
  snd (parse.ExtractRequestAnnotation text) = false ->
  parse.visit_method r f = Returns r.
Proof.
  intros Hd Hl He. unfold parse.visit_method. rewrite Hd, Hl.
  destruct (parse.ExtractRequestAnnotation text) as [annotation valid].
  cbn in He. now rewrite He.
Qed.

(** C7 fails for a method without a doc comment: the loop over the methods
    reads the first comment of the nil comment group and panics, whatever
    the method and the methods after it; so the walk over the interface
    Upload whose one method PhotoID has no doc comment panics. *)
Theorem method_without_doc_panics :
  (forall r names type rest,
     parse.visit_methods r (ast.mkField None names type :: rest)
     = Panics nil_dereference)
  /\ example.upload
       [ast.mkField None ["PhotoID"]
          (ast.FuncType [ast.mkField None ["id"] (ast.Ident "string")])]
     = Panics nil_dereference.
Proof. split; [reflexivity | vm_compute; reflexivity]. Qed.

(** ** The walk as a sequence of visits *)

Lemma visit_all_app (l1 l2 : list ast.kind) (p : parse.Parser) :
  visit_all p (l1 ++ l2) = p' ← visit_all p l1; visit_all p' l2.
Proof.
  revert p. induction l1 as [|k l1 IH]; intros p; cbn [app visit_all]; [reflexivity|].
  destruct (parse.Visit p k); cbn; [apply IH | reflexivity | reflexivity].
Qed.

Lemma Walk_preorder (node : ast.Node) (p : parse.Parser) :
  parse.Walk p node = visit_all p (preorder node).
Proof.
  revert node p. fix IH 1. intros [k children] p. cbn [parse.Walk preorder visit_all].
  destruct (parse.Visit p k) as [p1| |]; cbn [mbind outcome_bind]; try reflexivity.
  revert p1. induction children as [|c l IHl]; intros p1; [reflexivity|].
  rewrite visit_all_app, <- IH.
  destruct (parse.Walk p1 c) as [p2| |]; cbn [mbind outcome_bind]; try reflexivity.
  apply IHl.
Qed.

(** ** What the walk records of the HTTP annotation *)

Lemma ExtractHttpAnnotation_key (s : string) (annotation : parse.Annotation) :
  parse.ExtractHttpAnnotation s = (annotation, true) ->
  parse.Key annotation ∈ canonical_methods.
Proof.
  unfold parse.ExtractHttpAnnotation, parse.extractAnnotation.
  destruct (_ && _) eqn:E; cbn [parse.Key parse.Value].
  - apply andb_prop in E as [_ E]. unfold parse.httpAnnotationFilter in E.
    apply bool_decide_eq_true_1, httpMethods_cases in E.
    unfold canonical_methods.
    destruct E as [-> | [-> | [-> | [-> | [-> | ->]]]]]; cbn; intros [= <-]; cbn;
      set_solver.
  - cbn. discriminate.
Qed.









(* ===================================================================== *)
(** * Path substitution *)
(* ===================================================================== *)

(** ** Replacement in a rendered template *)

Lemma replace_skip_step old new k c s :
  builder.replace_from old new (S k) (String c s) = builder.replace_from old new k s.
Proof. reflexivity. Qed.

Lemma replace_step old new c s :
  builder.replace_from old new 0 (String c s)
  = if has_prefix old (String c s)
    then new +:+ builder.replace_from old new (String.length old - 1) s
    else String c (builder.replace_from old new 0 s).
Proof. reflexivity. Qed.

Lemma has_prefix_cons a p b s :
  has_prefix (String a p) (String b s) = Ascii.eqb a b && has_prefix p s.
Proof. reflexivity. Qed.

Lemma has_prefix_append (a s : string) : has_prefix a (a +:+ s) = true.
Proof.
  induction a as [|c a IH]; [reflexivity|].
  now rewrite append_cons, has_prefix_cons, Ascii.eqb_refl, IH.
Qed.

Lemma replace_skip (old new a s : string) :
  builder.replace_from old new (String.length a) (a +:+ s)
  = builder.replace_from old new 0 s.
Proof.
  induction a as [|c a IH]; [reflexivity|].
  rewrite append_cons. cbn [String.length]. now rewrite replace_skip_step.
Qed.

(** An occurrence at the start is replaced. *)
Lemma Replace_prefix (c : ascii) (old new s : string) :
  builder.Replace (String c old +:+ s) (String c old) new
  = new +:+ builder.Replace s (String c old) new.
Proof.
  unfold builder.Replace.
  rewrite append_cons, replace_step, <- append_cons, has_prefix_append.
  cbn [String.length].
  replace (S (String.length old) - 1)%nat with (String.length old) by lia.
  f_equal. apply replace_skip.
Qed.

Lemma Replace_here (key value s : string) :
  builder.Replace (token key +:+ s) (token key) value
  = value +:+ builder.Replace s (token key) value.
Proof. unfold token. rewrite append_cons, append_nil. apply Replace_prefix. Qed.

(** No occurrence starts in a text without an opening brace. *)
Lemma Replace_plain (key value a s : string) :
  plain a = true ->
  builder.Replace (a +:+ s) (token key) value
  = a +:+ builder.Replace s (token key) value.
Proof.
  unfold builder.Replace, plain. induction a as [|c a IH]; [reflexivity|].
  cbn [occurs]. rewrite negb_orb. intros [Hc Ha]%andb_prop.
  rewrite !append_cons, replace_step.
  unfold token at 1. rewrite append_cons, append_nil, has_prefix_cons.
  apply negb_true_iff in Hc. rewrite Hc. cbn [andb]. f_equal. now apply IH.
Qed.

(** The tokens of two different plain keys do not start alike. *)
Lemma token_mismatch (k k' s : string) :
  occurs "}" k = false -> occurs "}" k' = false -> k <> k' ->
  has_prefix (k +:+ "}") (k' +:+ "}" +:+ s) = false.
Proof.
  revert k'. induction k as [|a k IH]; intros [|c k']; cbn [occurs];
    rewrite ?append_cons, ?append_nil, ?has_prefix_cons.
  - congruence.
  - intros _ [Hc _]%orb_false_elim _. now rewrite Hc.
  - intros [Ha _]%orb_false_elim _ _. now rewrite Ascii.eqb_sym, Ha.
  - intros [_ Hk]%orb_false_elim [_ Hk']%orb_false_elim Hne.
    destruct (Ascii.eqb_spec a c) as [->|]; [|reflexivity].
    cbn [andb]. apply IH; congruence.
Qed.

(** The token of another key is passed over. *)
Lemma Replace_other (key k value s : string) :
  plain_key key = true -> plain_key k = true -> k <> key ->
  builder.Replace (token k +:+ s) (token key) value
  = token k +:+ builder.Replace s (token key) value.
Proof.
  unfold plain_key. intros [_ Hkey]%andb_prop [Hk1 Hk2]%andb_prop Hne.
  apply negb_true_iff in Hkey, Hk2.
  unfold token at 1 3. unfold builder.Replace.
  rewrite !append_cons, !append_nil, replace_step.
  unfold token at 1. rewrite append_cons, append_nil, has_prefix_cons, Ascii.eqb_refl.
  cbn [andb]. rewrite (append_assoc k), token_mismatch by congruence.
  f_equal. rewrite <- !(append_assoc k).
  apply (Replace_plain key value (k +:+ "}") s).
  unfold plain. rewrite occurs_append. apply negb_true_iff in Hk1.
  now rewrite Hk1.
Qed.

Lemma Replace_render (key value : string) (t : list segment) :
  plain_key key = true -> plain_template t = true ->
  builder.Replace (render t) (token key) value
  = render (replace_token key value <$> t).
Proof.
  intros Hkey. induction t as [|g t IH]; [reflexivity|].
  cbn [plain_template forallb]. intros [Hg Ht]%andb_prop.
  cbn [fmap list_fmap render]. fold (replace_token key value <$> t).
  destruct g as [s | k]; cbn [render_segment replace_token plain_segment] in *.
  - rewrite Replace_plain by assumption. f_equal. now apply IH.
  - destruct (String.eqb_spec k key) as [-> | Hne]; cbn [render_segment].
    + rewrite Replace_here. f_equal. now apply IH.
    + rewrite Replace_other by assumption. f_equal. now apply IH.
Qed.

Lemma replace_token_plain (key value : string) (t : list segment) :
  plain value = true -> plain_template t = true ->
  plain_template (replace_token key value <$> t) = true.
Proof.
  intros Hv. induction t as [|g t IH]; [reflexivity|].
  cbn [plain_template forallb fmap list_fmap]. intros [Hg Ht]%andb_prop.
  apply andb_true_intro. split; [|now apply IH].
  destruct g as [s | k]; cbn [replace_token plain_segment] in *; [assumption|].
  now destruct (String.eqb k key).
Qed.

(** ** The loop over the entries *)

Lemma substitute_render (order : list (string * string)) (t : list segment) :
  Forall plain_entry order -> plain_template t = true ->
  builder.substitute order (render t) = render (replace_tokens order t).
Proof.
  unfold builder.substitute, replace_tokens. intros Ho. revert t.
  induction Ho as [|[k v] order [Hk Hv] Ho IH]; intros t Ht; [reflexivity|].
  cbn [foldl fst snd] in *. fold (token k).
  rewrite Replace_render by assumption.
  apply IH. now apply replace_token_plain.
Qed.

Lemma replace_tokens_cons (order : list (string * string)) (g : segment)
    (t : list segment) :
  replace_tokens order (g :: t) = replace_tokens order [g] ++ replace_tokens order t.
Proof.
  unfold replace_tokens. revert g t.
  induction order as [|[k v] order IH]; intros g t; [reflexivity|].
  cbn [foldl fmap list_fmap]. apply IH.
Qed.

Lemma replace_tokens_text (order : list (string * string)) (s : string) :
  replace_tokens order [Text s] = [Text s].
Proof.
  unfold replace_tokens. induction order as [|[k v] order IH]; [reflexivity|].
  cbn [foldl fmap list_fmap replace_token]. apply IH.
Qed.

Lemma replace_tokens_absent (order : list (string * string)) (key : string) :
  key ∉ order.*1 -> replace_tokens order [Token key] = [Token key].
Proof.
  unfold replace_tokens. induction order as [|[k v] order IH]; [reflexivity|].
  cbn [foldl fmap list_fmap replace_token fst snd].
  rewrite not_elem_of_cons. intros [Hk Ho].
  destruct (String.eqb_spec key k) as [->|]; [contradiction|]. now apply IH.
Qed.

Lemma replace_tokens_present (order : list (string * string)) (key value : string) :
  NoDup order.*1 -> (key, value) ∈ order ->
  replace_tokens order [Token key] = [Text value].
Proof.
  induction order as [|[k v] order IH]; [now intros _ ?%elem_of_nil|].
  cbn [fmap list_fmap fst]. intros [Hk Ho]%NoDup_cons Hin.
  change (replace_tokens ((k, v) :: order) [Token key])
    with (replace_tokens order [replace_token k v (Token key)]).
  cbn [replace_token]. apply elem_of_cons in Hin as [[= -> ->] | Hin].
  - rewrite String.eqb_refl. apply replace_tokens_text.
  - destruct (String.eqb_spec key k) as [->|]; [|now apply IH].
    exfalso. apply Hk. apply list_elem_of_fmap. now exists (k, value).
Qed.

Lemma render_app (t1 t2 : list segment) :
  render (t1 ++ t2) = render t1 +:+ render t2.
Proof.
  induction t1 as [|g t1 IH]; [reflexivity|].
  cbn [app render]. now rewrite IH, append_assoc.
Qed.

Lemma replace_tokens_fill (order : list (string * string))
    (m : gmap string string) (g : segment) :
  builder.visits order m ->
  render (replace_tokens order [g]) = fill m g.
Proof.
  unfold builder.visits. intros Hp.
  destruct g as [s | key]; cbn [fill].
  - rewrite replace_tokens_text. apply append_empty_r.
  - destruct (m !! key) as [value|] eqn:E; cbn [default].
    + rewrite (replace_tokens_present order key value).
      * apply append_empty_r.
      * rewrite Hp. apply NoDup_fst_map_to_list.
      * rewrite Hp. now apply elem_of_map_to_list.
    + rewrite replace_tokens_absent; [apply append_empty_r|].
      rewrite Hp. intros ((k & v) & -> & Hin)%list_elem_of_fmap.
      apply elem_of_map_to_list in Hin. cbn in E. congruence.
Qed.

Lemma replace_tokens_filled (order : list (string * string))
    (m : gmap string string) (t : list segment) :
  builder.visits order m ->
  render (replace_tokens order t) = filled m t.
Proof.
  intros Hp. induction t as [|g t IH].
  - unfold replace_tokens. clear. now induction order.
  - rewrite replace_tokens_cons, render_app, IH. cbn [filled].
    now rewrite (replace_tokens_fill order m g Hp).
Qed.

(** The loop of the substitution on a plain template, for plain entries and
    any order of the visit. *)
Lemma substitute_filled (order : list (string * string))
    (m : gmap string string) (t : list segment) :
  builder.visits order m -> map_Forall (fun k v => plain_entry (k, v)) m ->
  plain_template t = true ->
  builder.substitute order (render t) = filled m t.
Proof.
  intros Hp Hm Ht. rewrite substitute_render, (replace_tokens_filled order m);
    [reflexivity | assumption | | assumption].
  apply Forall_forall. intros [k v] Hin. apply (Hm k v).
  apply elem_of_map_to_list. unfold builder.visits in Hp. now rewrite <- Hp.
Qed.

(** ** The setters *)

Lemma call_path_setters_map {Payload} (e : string) (calls : list (string * string))
    (b : builder.Impl Payload) :
  exists b',
    call_path_setters e calls b = Some b'
    /\ builder.pathSubstitutions b' = foldl assign (builder.pathSubstitutions b) calls.
Proof.
  revert b. induction calls as [|[k v] calls IH]; intros b.
  - now exists b.
  - cbn [call_path_setters builder.run_statement String.eqb Ascii.eqb Bool.eqb].
    cbn [mbind option_bind]. apply IH.
Qed.

Lemma foldl_assign (calls : list (string * string)) (m : gmap string string) :
  foldl assign m calls = list_to_map (reverse calls) ∪ m.
Proof.
  revert m. induction calls as [|[k v] calls IH]; intros m.
  - cbn. now rewrite (left_id_L ∅ (∪)).
  - cbn [foldl]. rewrite IH, reverse_cons, list_to_map_app. unfold assign.
    cbn [fst snd list_to_map foldr uncurry].
    rewrite <- (assoc_L (∪)). f_equal.
    rewrite insert_union_singleton_l. f_equal.
Qed.

Lemma path_setters_any_order (calls calls' : list (string * string)) :
  NoDup calls.*1 -> calls' ≡ₚ calls ->
  foldl assign ∅ calls' = list_to_map calls.
Proof.
  intros Hnd Hp. rewrite foldl_assign, (right_id_L ∅ (∪)).
  apply list_to_map_proper; [|now rewrite reverse_Permutation].
  now rewrite reverse_Permutation, Hp.
Qed.

Lemma applyPathSubstituions_substitute {Payload} (b : builder.Impl Payload)
    (order : list (string * string)) (api : string) :
  builder.visits order (builder.pathSubstitutions b) ->
  builder.applyPathSubstituions b order api = builder.substitute order api.
Proof.
  unfold builder.applyPathSubstituions, builder.visits. intros Hp.
  destruct (Nat.eqb_spec (size (builder.pathSubstitutions b)) 0) as [E|]; [|reflexivity].
  apply map_size_empty_iff in E. rewrite E, map_to_list_empty in Hp.
  now apply Permutation_nil_r in Hp as ->.
Qed.

(** C6, as amended: let the template be pieces of text without an opening
    brace and tokens of keys without braces, and let the PATH keys be
    distinct and without braces and the formatted arguments without an
    opening brace.  Then the calls of the PATH setters, in any order, leave
    the builder with the same entries, and path substitution, in whatever
    order the loop visits the entries, yields the template with every token
    of a PATH key replaced by the argument of the key and every other token
    left as it is. *)
Theorem path_substitution_any_order {Payload} (e : string) (t : list segment)
    (calls calls' : list (string * string)) :
  plain_template t = true ->
  NoDup calls.*1 -> Forall plain_entry calls ->
  calls' ≡ₚ calls ->
  exists b : builder.Impl Payload,
    call_path_setters e calls' builder.New = Some b
    /\ builder.pathSubstitutions b = list_to_map calls
    /\ forall order, builder.visits order (builder.pathSubstitutions b) ->
         builder.applyPathSubstituions b order (render t)
         = filled (list_to_map calls) t.
Proof.
  intros Ht Hnd Hplain Hp.
  destruct (call_path_setters_map e calls' (builder.New (Payload := Payload)))
    as (b & Hb & Hm).
  cbn [builder.New builder.pathSubstitutions] in Hm.
  rewrite (path_setters_any_order calls calls' Hnd Hp) in Hm.
  exists b. split; [assumption|]. split; [assumption|].
  intros order Ho. rewrite applyPathSubstituions_substitute by assumption.
  rewrite Hm in Ho. apply substitute_filled; [assumption | | assumption].
  intros k v Hkv. apply elem_of_list_to_map_2 in Hkv.
  rewrite Forall_forall in Hplain. now apply (Hplain (k, v)).
Qed.

(** The amended C6 at the template for the comments of a photo, with the
    setter of the comment called before the setter of the photo. *)
Lemma path_substitution_any_order_witness :
  let t := [Text "/photos/"; Token "id"; Text "/comments/"; Token "cid"] in
  let calls := [("id", "42"); ("cid", "7")] in
  render t = "/photos/{id}/comments/{cid}"
  /\ filled (list_to_map calls) t = "/photos/42/comments/7"
  /\ exists b : builder.Impl string,
       call_path_setters "id" [("cid", "7"); ("id", "42")] builder.New = Some b
       /\ builder.pathSubstitutions b = list_to_map calls
       /\ forall order, builder.visits order (builder.pathSubstitutions b) ->
            builder.applyPathSubstituions b order (render t)
            = filled (list_to_map calls) t.
Proof.
  intros t calls. split; [reflexivity|]. split; [vm_compute; reflexivity|].
  apply (path_substitution_any_order "id" t calls [("cid", "7"); ("id", "42")]).
  - reflexivity.
  - apply NoDup_cons. split; [|apply NoDup_singleton].
    rewrite list_elem_of_singleton. discriminate.
  - repeat constructor.
  - apply perm_swap.
Defined.

(** C6 as stated fails: with the distinct PATH keys a and b, the arguments
    {b} and x, and the template /{a}/{b}, which has exactly the tokens of
    the two keys, the loop may visit a first, and then the value of a is
    replaced in turn: the endpoint is /x/x and not the template with each
    token replaced by its argument, /{b}/x, which is what the loop yields
    when it visits b first. *)
Lemma path_substitution_depends_on_order :
  let t := [Text "/"; Token "a"; Text "/"; Token "b"] in
  let a_first := [("a", "{b}"); ("b", "x")] in
  let b_first := [("b", "x"); ("a", "{b}")] in
  exists b : builder.Impl string,
    call_path_setters "v" a_first builder.New = Some b
    /\ builder.visits a_first (builder.pathSubstitutions b)
    /\ builder.visits b_first (builder.pathSubstitutions b)
    /\ render t = "/{a}/{b}"
    /\ filled (builder.pathSubstitutions b) t = "/{b}/x"
    /\ builder.applyPathSubstituions b a_first (render t) = "/x/x"
    /\ builder.applyPathSubstituions b b_first (render t) = "/{b}/x"
    /\ builder.applyPathSubstituions b a_first (render t)
       <> filled (builder.pathSubstitutions b) t.
Proof.
  intros t a_first b_first.
  destruct (call_path_setters_map "v" a_first (builder.New (Payload := string)))
    as (b & Hb & Hm).
  exists b. split; [assumption|].
  assert (builder.pathSubstitutions b = list_to_map a_first) as E.
  { rewrite Hm. apply (path_setters_any_order a_first a_first); [|reflexivity].
    apply NoDup_cons. split; [|apply NoDup_singleton].
    rewrite list_elem_of_singleton. discriminate. }
  assert (builder.visits a_first (builder.pathSubstitutions b)) as Ha.
  { unfold builder.visits. rewrite E. symmetry. apply map_to_list_to_map.
    apply NoDup_cons. split; [|apply NoDup_singleton].
    rewrite list_elem_of_singleton. discriminate. }
  assert (builder.visits b_first (builder.pathSubstitutions b)) as Hbf.
  { unfold builder.visits in *. rewrite <- Ha. apply perm_swap. }
  split; [assumption|]. split; [assumption|]. split; [reflexivity|].
  split; [rewrite E; vm_compute; reflexivity|].
  rewrite !applyPathSubstituions_substitute by assumption.
  split; [vm_compute; reflexivity|]. split; [vm_compute; reflexivity|].
  rewrite E. vm_compute. discriminate.
Qed.

(* ===================================================================== *)
(** * More on the extraction of annotations *)
(* ===================================================================== *)

Lemma annotationTypes_cases (K : string) :
  K ∈ parse.annotationTypes ->
  K = "FIELD" \/ K = "HEADER" \/ K = "PART" \/ K = "PATH" \/ K = "QUERY"
  \/ K = "SYNC" \/ K = "ASYNC".
Proof. unfold parse.annotationTypes. set_unfold. tauto. Qed.

Lemma greedy_in {R} cls (k : string -> string -> option R) acc c s :
  cls c = true ->
  regexp.greedy cls k acc (String c s)
  = match regexp.greedy cls k (acc +:+ str c) s with
    | Some r => Some r
    | None => k acc (String c s)
    end.
Proof. intros E. cbn [regexp.greedy]. now rewrite E. Qed.

Lemma greedy_out {R} cls (k : string -> string -> option R) acc c s :
  cls c = false -> regexp.greedy cls k acc (String c s) = k acc (String c s).
Proof. intros E. cbn [regexp.greedy]. now rewrite E. Qed.

(** After the closing quote and parenthesis, a harmless rest is not taken
    into the value. *)
Lemma greedy_stops_at_tail (tail acc : string) (caps : list string) :
  harmless tail = true ->
  regexp.greedy regexp.any_char
    (fun cap s' =>
       regexp.match_here [regexp.Lit quote; regexp.Lit ")"] s' (caps ++ [cap]))
    acc tail = None.
Proof.
  destruct tail as [|c rest]; [reflexivity|]. cbn [harmless].
  intros [Hc | Hq]%orb_prop.
  - apply Ascii.eqb_eq in Hc as ->. rewrite greedy_out by reflexivity. reflexivity.
  - apply negb_true_iff in Hq. apply (greedy_without _ _ quote); [assumption|..].
    + intros a. apply match_lit_end.
    + intros a x u Hx. rewrite match_lit. destruct (Ascii.eqb_spec quote x); congruence.
Qed.

Lemma match_value_tail (p tail : string) (caps : list string) :
  all_chars regexp.any_char p = true -> harmless tail = true ->
  regexp.match_here
    [regexp.CapStar regexp.any_char; regexp.Lit quote; regexp.Lit ")"]
    (p +:+ str quote +:+ ")" +:+ tail) caps
  = Some (caps ++ [p], tail).
Proof.
  intros Hp Ht. rewrite match_star. apply greedy_longest; [assumption|].
  rewrite append_nil. unfold str. rewrite !append_cons, !append_nil.
  rewrite greedy_in by reflexivity. rewrite greedy_in by reflexivity.
  rewrite greedy_stops_at_tail by assumption.
  rewrite match_lit.
  replace (Ascii.eqb quote ")") with false by reflexivity.
  now rewrite !match_lit, !Ascii.eqb_refl.
Qed.

Lemma match_annotation_tail (M p tail : string) :
  M <> "" -> all_chars regexp.word_char M = true -> occurs newline p = false ->
  harmless tail = true ->
  regexp.match_here parse.pattern (annotation_text M p +:+ tail) [] = Some ([M; p], tail).
Proof.
  intros HM Hw Hp Ht. destruct M as [|c M]; [congruence|]. cbn [all_chars] in Hw.
  apply andb_prop in Hw as [Hc Hw].
  unfold annotation_text, parse.pattern.
  rewrite !append_assoc.
  rewrite append_cons, append_nil, match_lit, Ascii.eqb_refl.
  rewrite match_after_key by (assumption || reflexivity).
  rewrite Hc, append_cons, append_nil, match_lit, Ascii.eqb_refl.
  unfold str at 1. rewrite append_cons, append_nil, match_lit, Ascii.eqb_refl.
  now rewrite match_value_tail by (assumption || now apply no_newline_any).
Qed.

Lemma find_from_prefix (pre s : string) :
  occurs "@" pre = false ->
  regexp.find_from parse.pattern (pre +:+ s) = regexp.find_from parse.pattern s.
Proof.
  induction pre as [|x pre IH]; [reflexivity|]. cbn [occurs].
  intros [Hx Hpre]%orb_false_elim. rewrite append_cons. cbn [regexp.find_from].
  rewrite match_needs_at; [now apply IH|]. intros ->. discriminate.
Qed.

Lemma find_from_captures (s rest : string) (caps : list string) :
  regexp.match_here parse.pattern s [] = Some (caps, rest) ->
  exists whole, regexp.find_from parse.pattern s = whole :: caps.
Proof.
  intros E. destruct s; cbn [regexp.find_from]; rewrite E; eauto.
Qed.

Lemma extract_in_context (filter : string -> bool) (pre M p tail : string) :
  occurs "@" pre = false ->
  M <> "" -> all_chars regexp.word_char M = true -> occurs newline p = false ->
  harmless tail = true ->
  parse.extractAnnotation filter (pre +:+ annotation_text M p +:+ tail)
  = if filter M then (parse.mkAnnotation M p, true) else no_annotation.
Proof.
  intros Hpre HM Hw Hp Ht. unfold parse.extractAnnotation, regexp.FindStringSubmatch.
  rewrite find_from_prefix by assumption.
  destruct (find_from_captures _ _ _ (match_annotation_tail M p tail HM Hw Hp Ht))
    as [whole ->].
  cbn [length nth Nat.eqb andb]. now destruct (filter M).
Qed.

Lemma extract_annotation_text (filter : string -> bool) (M p : string) :
  M <> "" -> all_chars regexp.word_char M = true -> occurs newline p = false ->
  parse.extractAnnotation filter (annotation_text M p)
  = if filter M then (parse.mkAnnotation M p, true) else no_annotation.
Proof.
  intros HM Hw Hp.
  rewrite <- (extract_in_context filter "" M p "") by (assumption || reflexivity).
  now rewrite append_nil, append_empty_r.
Qed.

Lemma word_keys (K : string) :
  K ∈ parse.annotationTypes \/ K ∈ parse.httpMethods ->
  K <> "" /\ all_chars regexp.word_char K = true.
Proof.
  intros [H | H].
  - destruct (annotationTypes_cases K H)
      as [-> | [-> | [-> | [-> | [-> | [-> | ->]]]]]]; now split.
  - destruct (httpMethods_cases K H) as [-> | [-> | [-> | [-> | [-> | ->]]]]]; now split.
Qed.

Lemma filters_disjoint (K : string) :
  parse.httpAnnotationFilter K && parse.requestAnnotationFilter K = false.
Proof.
  unfold parse.httpAnnotationFilter, parse.requestAnnotationFilter.
  destruct (bool_decide_reflect (K ∈ parse.httpMethods)) as [H|]; [|reflexivity].
  apply bool_decide_eq_false_2. intros H'.
  destruct (httpMethods_cases K H) as [-> | [-> | [-> | [-> | [-> | ->]]]]];
    destruct (annotationTypes_cases _ H')
      as [E | [E | [E | [E | [E | [E | E]]]]]]; discriminate E.
Qed.

(** The parameter annotations: for a key K among PATH, QUERY, FIELD, HEADER,
    PART, SYNC and ASYNC and a value v without a line feed, extraction of the
    request annotation from the text of the annotation returns K and v as
    they are, also for an empty v; for an HTTP method key, and for any other
    key of word characters, it returns no match. *)
Theorem ExtractRequestAnnotation_forms :
  (forall K v, K ∈ parse.annotationTypes -> occurs newline v = false ->
     parse.ExtractRequestAnnotation (annotation_text K v)
     = (parse.mkAnnotation K v, true))
  /\ (forall M v, M <> "" -> all_chars regexp.word_char M = true ->
        M ∉ parse.annotationTypes -> occurs newline v = false ->
        parse.ExtractRequestAnnotation (annotation_text M v) = no_annotation)
  /\ (forall M v, M ∈ parse.httpMethods -> occurs newline v = false ->
        parse.ExtractRequestAnnotation (annotation_text M v) = no_annotation).
Proof.
  unfold parse.ExtractRequestAnnotation. repeat split.
  - intros K v HK Hv. destruct (word_keys K (or_introl HK)) as [Hne Hw].
    rewrite extract_annotation_text by assumption.
    unfold parse.requestAnnotationFilter. now rewrite bool_decide_eq_true_2.
  - intros M v Hne Hw HM Hv. rewrite extract_annotation_text by assumption.
    unfold parse.requestAnnotationFilter. now rewrite bool_decide_eq_false_2.
  - intros M v HM Hv. destruct (word_keys M (or_intror HM)) as [Hne Hw].
    rewrite extract_annotation_text by assumption.
    pose proof (filters_disjoint M) as D. unfold parse.httpAnnotationFilter in D.
    rewrite (bool_decide_eq_true_2 _ HM) in D. cbn in D. now rewrite D.
Qed.

(** The texts of the tests of the package. *)
Lemma ExtractRequestAnnotation_forms_witness :
  parse.ExtractRequestAnnotation (annotation_text "FIELD" "test_1")
  = (parse.mkAnnotation "FIELD" "test_1", true)
  /\ parse.ExtractRequestAnnotation (annotation_text "field" "invalid") = no_annotation
  /\ parse.ExtractRequestAnnotation (annotation_text "HEAD" "/test") = no_annotation.
Proof.
  destruct ExtractRequestAnnotation_forms as (H1 & H2 & H3).
  split; [|split].
  - apply (H1 "FIELD" "test_1"); [vm_compute; reflexivity | reflexivity].
  - apply (H2 "field" "invalid"); [discriminate | reflexivity | | reflexivity].
    intros H. apply annotationTypes_cases in H.
    destruct H as [H | [H | [H | [H | [H | [H | H]]]]]]; discriminate H.
  - apply (H3 "HEAD" "/test"); [vm_compute; reflexivity | reflexivity].
Defined.

(** No text is both an HTTP annotation and a parameter annotation: the two
    extractions never both report a match on the same text. *)
Theorem extractions_exclude_each_other (s : string) :
  snd (parse.ExtractHttpAnnotation s) && snd (parse.ExtractRequestAnnotation s) = false.
Proof.
  unfold parse.ExtractHttpAnnotation, parse.ExtractRequestAnnotation,
    parse.extractAnnotation.
  destruct (length _ =? 3)%nat; cbn [andb]; [|reflexivity].
  pose proof (filters_disjoint (nth 1 (regexp.FindStringSubmatch parse.pattern s) "")) as D.
  destruct (parse.httpAnnotationFilter _), (parse.requestAnnotationFilter _);
    cbn [parse.Key parse.Value]; try discriminate D;
    try destruct (String.eqb _ parse.httpMethodPostForm); reflexivity.
Qed.

(** The annotation is found inside a text: what stands before it, as long
    as it has no at sign (the comment marker), and a harmless rest after it
    (further lines, or a text without a quote) change nothing of what the two
    extractions return. *)
Theorem extraction_ignores_context (pre M p tail : string) :
  occurs "@" pre = false ->
  M <> "" -> all_chars regexp.word_char M = true -> occurs newline p = false ->
  harmless tail = true ->
  parse.ExtractHttpAnnotation (pre +:+ annotation_text M p +:+ tail)
  = parse.ExtractHttpAnnotation (annotation_text M p)
  /\ parse.ExtractRequestAnnotation (pre +:+ annotation_text M p +:+ tail)
     = parse.ExtractRequestAnnotation (annotation_text M p).
Proof.
  intros Hpre HM Hw Hp Ht.
  unfold parse.ExtractHttpAnnotation, parse.ExtractRequestAnnotation.
  now rewrite !extract_in_context, !extract_annotation_text by assumption.
Qed.

(** A doc comment line with its marker, and with a remark after the
    annotation. *)
Lemma extraction_ignores_context_witness :
  parse.ExtractHttpAnnotation
    ("// " +:+ annotation_text "GET" "/photos/{id}" +:+ " the photo")
  = parse.ExtractHttpAnnotation (annotation_text "GET" "/photos/{id}")
  /\ parse.ExtractRequestAnnotation
       ("// " +:+ annotation_text "GET" "/photos/{id}" +:+ " the photo")
     = parse.ExtractRequestAnnotation (annotation_text "GET" "/photos/{id}").
Proof.
  apply (extraction_ignores_context "// " "GET" "/photos/{id}" " the photo");
    (reflexivity || discriminate).
Defined.

(** What the extractions return: with a match, a key of the set of the
    filter, and for the HTTP annotation never POST_FORM but one of the five
    methods the builder knows; without a match, the zero annotation. *)
Theorem extraction_results (s : string) :
  (let '(annotation, valid) := parse.ExtractHttpAnnotation s in
   if valid then parse.Key annotation ∈ canonical_methods
   else annotation = parse.mkAnnotation "" "")
  /\ (let '(annotation, valid) := parse.ExtractRequestAnnotation s in
      if valid then parse.Key annotation ∈ parse.annotationTypes
      else annotation = parse.mkAnnotation "" "").
Proof.
  split.
  - destruct (parse.ExtractHttpAnnotation s) as [annotation [|]] eqn:E.
    + now apply (ExtractHttpAnnotation_key s).
    + revert E. unfold parse.ExtractHttpAnnotation, parse.extractAnnotation.
      destruct (_ && _); cbn [parse.Key parse.Value].
      * destruct (String.eqb _ _); discriminate.
      * now intros [= <-].
  - unfold parse.ExtractRequestAnnotation, parse.extractAnnotation.
    destruct (_ && _) eqn:E; [|reflexivity].
    apply andb_prop in E as [_ E]. cbn [parse.Key].
    now apply bool_decide_eq_true_1 in E.
Qed.

(* ===================================================================== *)
(** * More on the walk *)
(* ===================================================================== *)

(** While the parser is not collecting methods and no HTTP annotation
    comes, the visits change nothing and skip the methods. *)
Lemma visit_all_idle (l : list ast.kind) (p : parse.Parser) :
  parse.buildRequest p = false -> Forall unannotated l -> visit_all p l = Returns p.
Proof.
  intros Hp Hl. induction Hl as [|k l Hk Hl IH]; [reflexivity|].
  cbn [visit_all].
  assert (parse.Visit p k = Returns p) as ->; [|exact IH].
  destruct p as [file r b]. cbn in Hp. subst b.
  destruct k as [|name [|]|ms|text|]; cbn in *; try reflexivity.
  destruct (parse.ExtractHttpAnnotation text) as [annotation valid].
  cbn in Hk. now subst valid.
Qed.

(** A source unit without an HTTP annotation gives the empty request spec:
    when no comment of the tree is an HTTP annotation, the walk returns the
    spec as [newParseResult] made it, and it does not panic, whatever the
    interfaces of the unit and their methods are. *)
Theorem Parse_without_annotation (tree : ast.Node) (pkg : string) :
  Forall unannotated (preorder tree) ->
  parse.Parse (parse.NewParser tree pkg) = Returns (parse.newParseResult pkg).
Proof.
  intros H. unfold parse.Parse. cbn [parse.file parse.NewParser].
  rewrite Walk_preorder, visit_all_idle by (assumption || reflexivity). reflexivity.
Qed.

Lemma plain_interface_unannotated : Forall unannotated (preorder plain_interface).
Proof. repeat constructor. Qed.

(** The interface without an annotation of the tests, with a method
    without a doc comment. *)
Lemma Parse_without_annotation_witness :
  parse.Parse (parse.NewParser plain_interface "test")
  = Returns (parse.newParseResult "test").
Proof.
  exact (Parse_without_annotation plain_interface "test" plain_interface_unannotated).
Defined.

(** The generator does not refuse the empty request spec: for a source unit
    without an HTTP annotation, the walk followed by the execution of the
    template returns an output with a builder of the empty name, without
    setters, wrappers and callback type. *)
Theorem Execute_without_annotation (tree : ast.Node) (pkg : string) :
  Forall unannotated (preorder tree) ->
  parse.Parse (parse.NewParser tree pkg) ≫= generate.Execute
  = Returns (empty_output pkg).
Proof.
  intros H. unfold parse.Parse. cbn [parse.file parse.NewParser].
  rewrite Walk_preorder, visit_all_idle by (assumption || reflexivity). reflexivity.
Qed.

Lemma Execute_without_annotation_witness :
  parse.Parse (parse.NewParser plain_interface "test") ≫= generate.Execute
  = Returns (empty_output "test").
Proof.
  exact (Execute_without_annotation plain_interface "test" plain_interface_unannotated).
Defined.

(** ** Invariants of the walk *)

(** A property of the request spec that the assignments of the walk keep
    is kept by the visits, and so holds of the spec the walk returns when it
    holds of the empty one. *)
Lemma visit_all_invariant (P : parse.ParseResult -> Prop) :
  (forall annotation name f r, P r -> P (parse.route annotation name f r)) ->
  (forall name r, P r -> P (parse.set_RequestType name r)) ->
  (forall method endpoint r, P r -> P (parse.set_Http method endpoint r)) ->
  forall l p p', P (parse.result p) -> visit_all p l = Returns p' -> P (parse.result p').
Proof.
  intros Hroute Htype Hhttp.
  induction l as [|k l IH]; intros p p' Hp; cbn [visit_all]; [now intros [= <-]|].
  intros (p1 & H1 & H2)%bind_Returns. apply (IH p1 p'); [|assumption].
  clear IH H2. destruct k as [|name [|]|ms|text|]; cbn [parse.Visit] in H1.
  - now injection H1 as <-.
  - destruct (parse.buildRequest p); injection H1 as <-; cbn; auto.
  - now injection H1 as <-.
  - destruct (negb (parse.buildRequest p)); [now injection H1 as <-|].
    apply bind_Returns in H1 as (r1 & H1 & [= <-]). cbn.
    revert H1. generalize (parse.result p) Hp. clear -Hroute.
    induction ms as [|f ms IH]; intros r Hr; cbn [parse.visit_methods].
    + now intros [= <-].
    + intros (r2 & H2 & H3)%bind_Returns. apply (IH r2); [|assumption].
      revert H2. unfold parse.visit_method.
      destruct (ast.Doc f) as [doc|]; [|discriminate].
      destruct (ast.CommentList doc) as [|text lines]; [discriminate|].
      destruct (parse.ExtractRequestAnnotation text) as [annotation [|]]; cbn.
      * destruct (ast.Names f) as [|name names]; [discriminate|].
        intros [= <-]. now apply Hroute.
      * now intros [= <-].
  - destruct (parse.ExtractHttpAnnotation text) as [annotation [|]];
      injection H1 as <-; cbn; auto.
  - now injection H1 as <-.
Qed.

Lemma Parse_invariant (P : parse.ParseResult -> Prop) :
  (forall annotation name f r, P r -> P (parse.route annotation name f r)) ->
  (forall name r, P r -> P (parse.set_RequestType name r)) ->
  (forall method endpoint r, P r -> P (parse.set_Http method endpoint r)) ->
  forall tree pkg r,
    P (parse.newParseResult pkg) ->
    parse.Parse (parse.NewParser tree pkg) = Returns r -> P r.
Proof.
  intros Hroute Htype Hhttp tree pkg r H0.
  unfold parse.Parse. intros (p' & Hw & [= <-])%bind_Returns.
  rewrite Walk_preorder in Hw. cbn [parse.file parse.NewParser] in Hw.
  exact (visit_all_invariant P Hroute Htype Hhttp _ (parse.NewParser tree pkg) _ H0 Hw).
Qed.

Lemma route_cases (P : parse.ParseResult -> Prop) annotation name f r :
  (forall m, P (parse.set_PostFormParams m r)) ->
  (forall m, P (parse.set_HeaderParams m r)) ->
  (forall m, P (parse.set_PostMultiPartParams m r)) ->
  (forall m, P (parse.set_PathSubstitutions m r)) ->
  (forall m, P (parse.set_QueryParams m r)) ->
  P (parse.set_Sync f (parse.Value annotation) r) ->
  P (parse.set_Async f (parse.Value annotation) r) ->
  P r ->
  P (parse.route annotation name f r).
Proof.
  intros. unfold parse.route.
  repeat (match goal with
          | |- context [if ?b then _ else _] => destruct b
          end); auto.
Qed.

Lemma each_Returns {A B} (f : A -> outcome B) (l : list A) (bs : list B) :
  generate.each f l = Returns bs -> Forall2 (fun a b => f a = Returns b) l bs.
Proof.
  revert bs. induction l as [|a l IH]; intros bs; cbn [generate.each].
  - intros [= <-]. constructor.
  - intros (b & Hb & (bs' & Hbs & [= <-])%bind_Returns)%bind_Returns.
    constructor; [assumption | now apply IH].
Qed.

Lemma emit_setters_Returns (r : parse.ParseResult) (ss : list generate.Setter) :
  generate.emit_setters r = Returns ss ->
  exists s1 s2 s3 s4 s5 s6,
    ss = s1 ++ s2 ++ s3 ++ s4 ++ s5 ++ s6
    /\ generate.each (generate.keyed_setter generate.IndexAssign "pathSubstitutions")
         (generate.range (parse.PathSubstitutions r)) = Returns s1
    /\ generate.each (generate.keyed_setter generate.AddCall "queryParams")
         (generate.range (parse.QueryParams r)) = Returns s2
    /\ generate.each (generate.keyed_setter generate.AddCall "postFormParams")
         (generate.range (parse.PostFormParams r)) = Returns s3
    /\ generate.each generate.body_setter (generate.range (parse.PostParams r))
       = Returns s4
    /\ generate.each (generate.keyed_setter generate.IndexAssign "headerParams")
         (generate.range (parse.HeaderParams r)) = Returns s5
    /\ generate.each (generate.keyed_setter generate.IndexAssign "postMultiPartParams")
         (generate.range (parse.PostMultiPartParams r)) = Returns s6.
Proof.
  unfold generate.emit_setters.
  intros (s1 & H1 & (s2 & H2 & (s3 & H3 & (s4 & H4 & (s5 & H5 & (s6 & H6 & [= <-])
    %bind_Returns)%bind_Returns)%bind_Returns)%bind_Returns)%bind_Returns)%bind_Returns.
  now exists s1, s2, s3, s4, s5, s6.
Qed.

Lemma keyed_setters_no_Assign stmt fld l ss :
  (forall f k v fld' v', stmt f k v <> generate.Assign fld' v') ->
  generate.each (generate.keyed_setter stmt fld) l = Returns ss ->
  Forall (fun s => forall fld' v', generate.setter_body s <> generate.Assign fld' v') ss.
Proof.
  intros Hs H. apply each_Returns in H.
  induction H as [|kv s l ss Hkv _ IH]; constructor; [|assumption].
  destruct (keyed_setter_body _ _ _ _ Hkv) as (k & v & ->). apply Hs.
Qed.

(** The walk never records a body parameter: in the request spec it returns
    the package name is the one the parser was made with and PostParams is
    empty, so no setter the template emits for it assigns the body object of
    the builder. *)
Theorem Parse_records_no_body (tree : ast.Node) (pkg : string)
    (r : parse.ParseResult) :
  parse.Parse (parse.NewParser tree pkg) = Returns r ->
  parse.PackageName r = pkg
  /\ parse.PostParams r = ∅
  /\ forall ss, generate.emit_setters r = Returns ss ->
       Forall (fun s => forall fld v, generate.setter_body s <> generate.Assign fld v) ss.
Proof.
  intros H.
  assert (parse.PackageName r = pkg /\ parse.PostParams r = ∅) as [Hp Hb].
  { revert H. apply (Parse_invariant
      (fun r => parse.PackageName r = pkg /\ parse.PostParams r = ∅)); try easy.
    intros. now apply route_cases. }
  split; [assumption|]. split; [assumption|].
  intros ss (s1 & s2 & s3 & s4 & s5 & s6 & -> & H1 & H2 & H3 & H4 & H5 & H6)
    %emit_setters_Returns.
  rewrite Hb in H4. injection H4 as <-.
  repeat (apply Forall_app; split);
    try (eapply keyed_setters_no_Assign; [|eassumption]; discriminate).
  constructor.
Qed.

Lemma Parse_records_no_body_witness :
  parse.PackageName upload_sync_async = "test"
  /\ parse.PostParams upload_sync_async = ∅
  /\ forall ss, generate.emit_setters upload_sync_async = Returns ss ->
       Forall (fun s => forall fld v, generate.setter_body s <> generate.Assign fld v) ss.
Proof.
  exact (Parse_records_no_body _ "test" upload_sync_async upload_sync_async_parsed).
Defined.

Lemma Execute_Returns (r : parse.ParseResult) (out : generate.Output) :
  generate.Execute r = Returns out ->
  exists ss sw aw,
    generate.emit_setters r = Returns ss
    /\ generate.emit_sync r = Returns sw
    /\ generate.emit_async r = Returns aw
    /\ out = generate.mkOutput (parse.PackageName r) (generate.emit_callback r)
               (parse.RequestType r) generate.impl_fields ss
               (parse.ApiEndpoint r) (parse.HttpMethod r) sw aw.
Proof.
  unfold generate.Execute.
  intros (ss & Hss & (sw & Hsw & (aw & Haw & [= <-])%bind_Returns)%bind_Returns)
    %bind_Returns.
  now exists ss, sw, aw.
Qed.

Lemma truth_string_spec (s : string) : generate.truth_string s = true <-> s <> "".
Proof.
  unfold generate.truth_string.
  destruct (String.eqb_spec s ""); cbn; split; congruence.
Qed.

Lemma emit_async_Some (r : parse.ParseResult) (aw : option generate.AsyncWrapper) :
  generate.emit_async r = Returns aw ->
  (is_Some aw <-> parse.CallbackType r <> "" /\ is_Some (parse.AsyncResponse r)).
Proof.
  unfold generate.emit_async. rewrite <- truth_string_spec.
  destruct (generate.truth_string (parse.CallbackType r));
    destruct (parse.AsyncResponse r) as [fa|]; cbn [andb generate.truth_field].
  - rewrite truth_field_Some.
    intros (? & _ & (? & _ & (? & _ & (? & _ & [= <-])%bind_Returns)%bind_Returns)
      %bind_Returns)%bind_Returns.
    split; eauto.
  - rewrite truth_field_None. intros [= <-]. split; [intros [? [=]] | intros [_ [? [=]]]].
  - intros [= <-]. split; [intros [? [=]] | intros [[=] _]].
  - intros [= <-]. split; [intros [? [=]] | intros [[=] _]].
Qed.

Lemma emit_sync_Some (r : parse.ParseResult) (sw : option generate.SyncWrapper) :
  generate.emit_sync r = Returns sw ->
  (is_Some sw <-> parse.ResponseType r <> "" /\ is_Some (parse.SyncResponse r)).
Proof.
  unfold generate.emit_sync. rewrite <- truth_string_spec.
  destruct (generate.truth_string (parse.ResponseType r));
    destruct (parse.SyncResponse r) as [fs|]; cbn [andb generate.truth_field].
  - rewrite truth_field_Some. intros (? & _ & [= <-])%bind_Returns. split; eauto.
  - rewrite truth_field_None. intros [= <-]. split; [intros [? [=]] | intros [_ [? [=]]]].
  - intros [= <-]. split; [intros [? [=]] | intros [[=] _]].
  - intros [= <-]. split; [intros [? [=]] | intros [[=] _]].
Qed.

(** The walk records a response method and its type together: in the
    request spec it returns, a response type that is set comes with the SYNC
    method, and a callback type that is set comes with the ASYNC method. *)
Theorem Parse_pairs_responses (tree : ast.Node) (pkg : string)
    (r : parse.ParseResult) :
  parse.Parse (parse.NewParser tree pkg) = Returns r ->
  (parse.ResponseType r <> "" -> is_Some (parse.SyncResponse r))
  /\ (parse.CallbackType r <> "" -> is_Some (parse.AsyncResponse r)).
Proof.
  apply (Parse_invariant
    (fun r => (parse.ResponseType r <> "" -> is_Some (parse.SyncResponse r))
              /\ (parse.CallbackType r <> "" -> is_Some (parse.AsyncResponse r))));
    try easy.
  intros annotation name f r0 [H1 H2].
  apply route_cases; cbn; try (intros; split; assumption); split; eauto.
Qed.

Lemma Parse_pairs_responses_witness :
  (parse.ResponseType upload_sync_async <> ""
   -> is_Some (parse.SyncResponse upload_sync_async))
  /\ (parse.CallbackType upload_sync_async <> ""
      -> is_Some (parse.AsyncResponse upload_sync_async)).
Proof.
  exact (Parse_pairs_responses _ "test" upload_sync_async upload_sync_async_parsed).
Defined.

(** For a request spec that the walk returned, an output of the template
    declares the callback type exactly when it has the async wrapper, and
    has the sync wrapper exactly when the response type is set. *)
Theorem parsed_output_wrappers (tree : ast.Node) (pkg : string)
    (r : parse.ParseResult) (out : generate.Output) :
  parse.Parse (parse.NewParser tree pkg) = Returns r ->
  generate.Execute r = Returns out ->
  (is_Some (generate.callback out) <-> is_Some (generate.async_wrapper out))
  /\ (is_Some (generate.sync_wrapper out) <-> parse.ResponseType r <> "").
Proof.
  intros Hp (ss & sw & aw & _ & Hsw & Haw & ->)%Execute_Returns.
  assert ((parse.ResponseType r <> "" -> is_Some (parse.SyncResponse r))
          /\ (parse.CallbackType r <> "" -> is_Some (parse.AsyncResponse r)))
    as [Hs Ha].
  { revert Hp. apply (Parse_invariant
      (fun r => (parse.ResponseType r <> "" -> is_Some (parse.SyncResponse r))
                /\ (parse.CallbackType r <> "" -> is_Some (parse.AsyncResponse r))));
      try easy.
    intros annotation name f r0 [H1 H2].
    apply route_cases; cbn; try (intros; split; assumption); split; eauto. }
  cbn [generate.callback generate.async_wrapper generate.sync_wrapper].
  rewrite (emit_async_Some r aw Haw), (emit_sync_Some r sw Hsw). split.
  - unfold generate.emit_callback.
    destruct (generate.truth_string (parse.CallbackType r)) eqn:E.
    + apply truth_string_spec in E. split; [intros _; auto | eauto].
    + split; [intros [? [=]] | intros [Hc _]].
      apply truth_string_spec in Hc. congruence.
  - tauto.
Qed.

Lemma upload_sync_async_output :
  exists out, generate.Execute upload_sync_async = Returns out.
Proof. eexists. vm_compute. reflexivity. Defined.

Lemma parsed_output_wrappers_witness :
  exists out,
    generate.Execute upload_sync_async = Returns out
    /\ (is_Some (generate.callback out) <-> is_Some (generate.async_wrapper out))
    /\ (is_Some (generate.sync_wrapper out)
        <-> parse.ResponseType upload_sync_async <> "").
Proof.
  destruct upload_sync_async_output as [out Hout]. exists out. split; [assumption|].
  exact (parsed_output_wrappers _ "test" upload_sync_async out
           upload_sync_async_parsed Hout).
Defined.

(** ** The response methods *)

Lemma route_response_same (is_sync : bool) annotation name f r :
  parse.Key annotation = response_key is_sync ->
  response is_sync (parse.route annotation name f r) = (Some f, parse.Value annotation).
Proof.
  intros E. unfold parse.route. rewrite E. now destruct is_sync.
Qed.

Lemma route_response_other (is_sync : bool) annotation name f r :
  parse.Key annotation <> response_key is_sync ->
  response is_sync (parse.route annotation name f r) = response is_sync r.
Proof.
  intros E. unfold parse.route.
  repeat (match goal with
          | |- context [if String.eqb ?a ?b then _ else _] =>
              destruct (String.eqb_spec a b)
          end); destruct is_sync; cbn in *; try reflexivity; congruence.
Qed.

Lemma visit_method_response_other (is_sync : bool) (r r' : parse.ParseResult)
    (g : ast.Field) :
  other_key (response_key is_sync) g ->
  parse.visit_method r g = Returns r' ->
  response is_sync r' = response is_sync r.
Proof.
  unfold other_key, annotated, parse.visit_method. intros Hg.
  destruct (ast.Doc g) as [doc|] eqn:Ed; [|discriminate].
  destruct (ast.CommentList doc) as [|text lines] eqn:El; [discriminate|].
  destruct (parse.ExtractRequestAnnotation text) as [annotation [|]] eqn:Ea; cbn.
  - destruct (ast.Names g) as [|name names] eqn:En; [discriminate|].
    intros [= <-]. apply route_response_other. apply (Hg annotation name).
    now exists doc, text, lines, names.
  - now intros [= <-].
Qed.

(** The last SYNC method and the last ASYNC method win: when the loop over
    the methods returns, the method recorded for SYNC (for ASYNC) is the
    last method of the list with that annotation, and the type recorded is
    the value of its annotation. *)
Theorem last_response_wins (is_sync : bool) (ms before after : list ast.Field)
    (f : ast.Field) (annotation : parse.Annotation) (name : string)
    (r r' : parse.ParseResult) :
  ms = before ++ f :: after ->
  annotated f annotation name ->
  parse.Key annotation = response_key is_sync ->
  Forall (other_key (response_key is_sync)) after ->
  parse.visit_methods r ms = Returns r' ->
  response is_sync r' = (Some f, parse.Value annotation).
Proof.
  intros -> (doc & text & lines & names & Hd & Hl & He & Hn) Hk Hafter. revert r.
  induction before as [|g before IH]; intros r; cbn [app parse.visit_methods].
  - intros (r1 & H1 & H2)%bind_Returns.
    unfold parse.visit_method in H1. rewrite Hd, Hl, He, Hn in H1. cbn in H1.
    injection H1 as <-.
    assert (forall l r0 r1, Forall (other_key (response_key is_sync)) l ->
              parse.visit_methods r0 l = Returns r1 ->
              response is_sync r1 = response is_sync r0) as Hkeep.
    { clear. induction l as [|g l IH]; intros r0 r1 Hl; cbn [parse.visit_methods].
      - now intros [= <-].
      - apply Forall_cons in Hl as [Hg Hl].
        intros (r2 & H2 & H3)%bind_Returns.
        rewrite (IH r2 r1 Hl H3). now apply (visit_method_response_other _ r0 r2 g). }
    rewrite (Hkeep _ _ _ Hafter H2). now apply route_response_same.
  - intros (r1 & H1 & H2)%bind_Returns. now apply (IH r1).
Qed.

Lemma Run_annotated :
  annotated example.Run (parse.mkAnnotation "SYNC" "UploadResponse") "Run".
Proof. do 4 eexists. repeat split; reflexivity. Defined.

Lemma RunAsync_other_key : other_key parse.sync example.RunAsync.
Proof.
  intros annotation name (doc & text & lines & names & Hd & Hl & He & _).
  injection Hd as <-. injection Hl as <- <-.
  vm_compute in He. injection He as <-. discriminate.
Defined.

Lemma run_and_async_visited :
  parse.visit_methods (parse.newParseResult "test") [example.Run; example.RunAsync]
  = Returns run_and_async.
Proof. vm_compute. reflexivity. Qed.

(** The loop over the methods Run and RunAsync records Run for SYNC. *)
Lemma last_response_wins_witness :
  response true run_and_async = (Some example.Run, "UploadResponse").
Proof.
  refine (last_response_wins true [example.Run; example.RunAsync] [] [example.RunAsync]
            example.Run (parse.mkAnnotation "SYNC" "UploadResponse") "Run"
            (parse.newParseResult "test") run_and_async eq_refl Run_annotated eq_refl
            _ run_and_async_visited).
  constructor; [exact RunAsync_other_key | constructor].
Defined.

(* ===================================================================== *)
(** * More on the template functions *)
(* ===================================================================== *)

(** [getParamsList] joins the texts of the parameters with commas, with no
    comma after the last one and the empty text for no parameter; it fails
    as the first parameter that has no name or no printable type does. *)
Theorem getParamsList_joins (params : list ast.Field) :
  generate.getParamsList (ast.FuncType params)
  = texts ← generate.each param_text params; Returns (String.concat "," texts).
Proof.
  cbn [generate.getParamsList].
  induction params as [|f rest IH]; [reflexivity|].
  cbn [generate.params_list generate.each].
  assert (param_text f
          = match ast.Names f with
            | [] => Panics index_out_of_range
            | name :: _ =>
                t ← generate.getParamType (ast.FType f); Returns (name +:+ " " +:+ t)
            end) as -> by reflexivity.
  destruct (ast.Names f) as [|name names]; [reflexivity|].
  destruct (generate.getParamType (ast.FType f)) as [ty| |]; cbn [mbind outcome_bind];
    try reflexivity.
  destruct rest as [|g rest']; [reflexivity|].
  rewrite IH. cbn [generate.each].
  destruct (param_text g); cbn [mbind outcome_bind]; try reflexivity.
  destruct (generate.each param_text rest'); cbn [mbind outcome_bind]; reflexivity.
Qed.

Lemma first_annotation_spec (order : list string) (comment : string) :
  main_v2.first_annotation order comment
  = let match_ := regexp.FindStringSubmatch parse.pattern comment in
    if (length match_ =? 3)%nat && bool_decide (nth 1 match_ "" ∈ order)
    then Returns (nth 2 match_ "")
    else Exits "Must have query or path or field parameter defined.".
Proof.
  cbn zeta. induction order as [|ty order IH]; cbn [main_v2.first_annotation].
  - now rewrite andb_false_r.
  - unfold main_v2.extractAnnotationValue. rewrite IH.
    destruct (length _ =? 3)%nat; cbn [andb]; [|reflexivity].
    destruct (String.eqb_spec (nth 1 (regexp.FindStringSubmatch parse.pattern comment) "")
                ty) as [E|E].
    + rewrite bool_decide_eq_true_2; [reflexivity|]. rewrite E. apply list_elem_of_here.
    + destruct (bool_decide_reflect
                  (nth 1 (regexp.FindStringSubmatch parse.pattern comment) "" ∈ order))
        as [H|H].
      * rewrite bool_decide_eq_true_2; [reflexivity|]. now apply list_elem_of_further.
      * rewrite bool_decide_eq_false_2; [reflexivity|].
        intros [?|?]%elem_of_cons; congruence.
Qed.

(** [getAnnotationValue] reads the value of the parameter annotation from
    the text of the doc comment: it returns the value when the text is the
    annotation, after a text without an at sign and before a harmless rest
    such as the line feed that ends the text of a comment group; it ends the
    process, without a panic, when the text has no at sign, as for a method
    without a doc comment. *)
Theorem getAnnotationValue_reads_doc (f : ast.Field) :
  (forall pre K v tail,
     ast.Text (ast.Doc f) = pre +:+ annotation_text K v +:+ tail ->
     occurs "@" pre = false -> K ∈ parse.annotationTypes ->
     occurs newline v = false -> harmless tail = true ->
     generate.getAnnotationValue f = Returns v)
  /\ (occurs "@" (ast.Text (ast.Doc f)) = false ->
      generate.getAnnotationValue f
      = Exits "Must have query or path or field parameter defined.")
  /\ (ast.Doc f = None ->
      generate.getAnnotationValue f
      = Exits "Must have query or path or field parameter defined.").
Proof.
  assert (occurs "@" (ast.Text (ast.Doc f)) = false ->
          generate.getAnnotationValue f
          = Exits "Must have query or path or field parameter defined.") as Hnone.
  { intros H. unfold generate.getAnnotationValue, parse.ExtractRequestAnnotation.
    rewrite extract_nothing; [reflexivity|]. now apply find_without_at. }
  split; [|split; [assumption|]].
  - intros pre K v tail E Hpre HK Hv Ht.
    destruct (word_keys K (or_introl HK)) as [Hne Hw].
    unfold generate.getAnnotationValue, parse.ExtractRequestAnnotation.
    rewrite E, extract_in_context by assumption.
    unfold parse.requestAnnotationFilter. now rewrite bool_decide_eq_true_2.
  - intros E. apply Hnone. now rewrite E.
Qed.

(** The method PhotoID, whose doc text is the annotation and a line feed. *)
Lemma getAnnotationValue_reads_doc_witness :
  generate.getAnnotationValue PhotoID = Returns "id".
Proof.
  apply (proj1 (getAnnotationValue_reads_doc PhotoID) "" "PATH" "id" (str newline));
    reflexivity.
Defined.

(** The earlier [getAnnotationValue], which tries the keys of
    [annotationTypes] one by one in the order of a range over the map,
    returns what the one of package generate returns, whatever that order. *)
Theorem getAnnotationValue_versions_agree (order : list string) (f : ast.Field) :
  order ≡ₚ elements parse.annotationTypes ->
  main_v2.getAnnotationValue order f = generate.getAnnotationValue f.
Proof.
  intros Hp. unfold main_v2.getAnnotationValue, generate.getAnnotationValue.
  rewrite first_annotation_spec. cbn zeta.
  unfold parse.ExtractRequestAnnotation, parse.extractAnnotation,
    parse.requestAnnotationFilter.
  set (k := nth 1 _ "").
  assert (bool_decide (k ∈ order) = bool_decide (k ∈ parse.annotationTypes)) as ->.
  { apply bool_decide_ext. rewrite Hp. apply elem_of_elements. }
  now destruct (_ && _).
Qed.

Lemma getAnnotationValue_versions_agree_witness :
  main_v2.getAnnotationValue (elements parse.annotationTypes) PhotoID
  = generate.getAnnotationValue PhotoID.
Proof.
  exact (getAnnotationValue_versions_agree _ PhotoID (reflexivity _)).
Defined.

(** The earlier extraction of the HTTP tag returns the key and the value of
    what [ExtractHttpAnnotation] returns, for every text: the method and the
    endpoint with POST_FORM turned into POST, two empty strings without a
    match. *)
Theorem extractHttpMethodTag_agrees (s : string) :
  main_v2.extractHttpMethodTag s
  = (parse.Key (fst (parse.ExtractHttpAnnotation s)),
     parse.Value (fst (parse.ExtractHttpAnnotation s))).
Proof.
  unfold main_v2.extractHttpMethodTag, parse.ExtractHttpAnnotation,
    parse.extractAnnotation, main_v2.isAnnotationHttpMethod, parse.httpAnnotationFilter.
  cbn zeta. destruct (_ && _); cbn [parse.Key parse.Value]; [|reflexivity].
  now destruct (String.eqb _ parse.httpMethodPostForm).
Qed.

(** The tag extractions of the first program are projections of
    [ExtractRequestAnnotation]: each returns the value when the key is its
    own and the empty string otherwise, so at most one of them returns a
    value for a text, and an empty value is returned like no match. *)
Theorem tag_extractions_project (s : string) :
  let annotation := fst (parse.ExtractRequestAnnotation s) in
  let pick key :=
    if String.eqb (parse.Key annotation) key then parse.Value annotation else "" in
  main_v1.extractQueryParam s = pick "QUERY"
  /\ main_v1.extractSyncTag s = pick "SYNC"
  /\ main_v1.extractAsyncTag s = pick "ASYNC"
  /\ (main_v1.extractQueryParam s = "" \/ main_v1.extractSyncTag s = "")
  /\ (main_v1.extractQueryParam s = "" \/ main_v1.extractAsyncTag s = "")
  /\ (main_v1.extractSyncTag s = "" \/ main_v1.extractAsyncTag s = "").
Proof.
  cbn zeta.
  unfold main_v1.extractQueryParam, main_v1.extractSyncTag, main_v1.extractAsyncTag,
    main_v1.extract, main_v1.isAnnotationSync, main_v1.isAnnotationAsync,
    parse.ExtractRequestAnnotation, parse.extractAnnotation,
    parse.requestAnnotationFilter.
  set (k := nth 1 _ ""). set (v := nth 2 _ "").
  destruct (length _ =? 3)%nat; cbn [andb fst parse.Key parse.Value];
    [|repeat split; auto].
  destruct (bool_decide_reflect (k ∈ parse.annotationTypes)) as [H|H];
    cbn [fst parse.Key parse.Value].
  - repeat split;
      destruct (String.eqb_spec k "QUERY"), (String.eqb_spec k "SYNC"),
        (String.eqb_spec k "ASYNC"); auto; congruence.
  - assert (k <> "QUERY" /\ k <> "SYNC" /\ k <> "ASYNC") as (H1 & H2 & H3).
    { repeat split; intros ->; apply H; vm_compute; reflexivity. }
    apply String.eqb_neq in H1, H2, H3. rewrite H1, H2, H3. repeat split; auto.
Qed.

(** What the first program took for an HTTP tag, the packages take for the
    same HTTP annotation: a method that [extractHttpMethodTag] of the first
    program returns is returned, with the same endpoint, by
    [ExtractHttpAnnotation]. *)
Theorem first_http_tags_kept (s method api : string) :
  main_v1.extractHttpMethodTag s = (method, api) -> method <> "" ->
  parse.ExtractHttpAnnotation s = (parse.mkAnnotation method api, true).
Proof.
  unfold main_v1.extractHttpMethodTag, main_v1.isAnnotationHttpMethod,
    parse.ExtractHttpAnnotation, parse.extractAnnotation, parse.httpAnnotationFilter.
  cbn zeta. set (k := nth 1 _ ""). set (v := nth 2 _ "").
  destruct (length _ =? 3)%nat; cbn [andb]; [|intros [= <- <-]; congruence].
  destruct (_ || _) eqn:E; [|intros [= <- <-]; congruence].
  intros [= <- <-] _.
  assert (k = "GET" \/ k = "POST" \/ k = "PUT" \/ k = "HEAD" \/ k = "DELETE") as Hk.
  { repeat (apply orb_prop in E as [E | E]); apply String.eqb_eq in E; auto. }
  destruct Hk as [-> | [-> | [-> | [-> | ->]]]]; reflexivity.
Qed.

Lemma first_http_tags_kept_witness :
  parse.ExtractHttpAnnotation ("// " +:+ annotation_text "PUT" "/photos")
  = (parse.mkAnnotation "PUT" "/photos", true).
Proof.
  apply (first_http_tags_kept ("// " +:+ annotation_text "PUT" "/photos") "PUT" "/photos");
    [vm_compute; reflexivity | discriminate].
Defined.

(* ===================================================================== *)
(** * More on the emitted setters *)
(* ===================================================================== *)

#[local] Instance key_le_total : Total generate.key_le.
Proof. intros x y. unfold generate.key_le. apply String.leb_total. Qed.

Lemma keyed_setter_name stmt fld kv s :
  generate.keyed_setter stmt fld kv = Returns s -> generate.setter_name s = kv.1.
Proof.
  destruct kv as [k f]. unfold generate.keyed_setter.
  intros (? & _ & (? & _ & (? & _ & [= <-])%bind_Returns)%bind_Returns)%bind_Returns.
  reflexivity.
Qed.

Lemma body_setter_name kv s :
  generate.body_setter kv = Returns s -> generate.setter_name s = kv.1.
Proof.
  destruct kv as [k f]. unfold generate.body_setter.
  intros (? & _ & (? & _ & [= <-])%bind_Returns)%bind_Returns. reflexivity.
Qed.

Lemma each_names (f : string * ast.Field -> outcome generate.Setter) l ss :
  (forall kv s, f kv = Returns s -> generate.setter_name s = kv.1) ->
  generate.each f l = Returns ss -> generate.setter_name <$> ss = l.*1.
Proof.
  intros Hf H. apply each_Returns in H.
  induction H as [|kv s l ss Hkv _ IH]; [reflexivity|].
  cbn [fmap list_fmap]. f_equal; [now apply Hf | exact IH].
Qed.

(** One setter for each entry, named by the key of the entry: when the
    ranges of the template return, the names of the setters are the keys of
    the six maps, map after map; within a map the entries come in the order
    of their keys, each entry once. *)
Theorem setters_named_by_keys (r : parse.ParseResult) (ss : list generate.Setter) :
  generate.emit_setters r = Returns ss ->
  generate.setter_name <$> ss = ranged_keys r
  /\ forall m : gmap string ast.Field,
       Sorted generate.key_le (generate.range m)
       /\ generate.range m ≡ₚ map_to_list m.
Proof.
  intros (s1 & s2 & s3 & s4 & s5 & s6 & -> & H1 & H2 & H3 & H4 & H5 & H6)
    %emit_setters_Returns.
  split.
  - unfold ranged_keys. rewrite !fmap_app.
    rewrite (each_names _ _ _ (keyed_setter_name _ _) H1),
      (each_names _ _ _ (keyed_setter_name _ _) H2),
      (each_names _ _ _ (keyed_setter_name _ _) H3),
      (each_names _ _ _ body_setter_name H4),
      (each_names _ _ _ (keyed_setter_name _ _) H5),
      (each_names _ _ _ (keyed_setter_name _ _) H6).
    reflexivity.
  - intros m. unfold generate.range. split.
    + apply Sorted_merge_sort. apply _.
    + apply merge_sort_Permutation.
Qed.

Lemma photo_and_owner_setters :
  exists ss, generate.emit_setters photo_and_owner = Returns ss.
Proof. eexists. vm_compute. reflexivity. Defined.

Lemma setters_named_by_keys_witness :
  exists ss,
    generate.emit_setters photo_and_owner = Returns ss
    /\ generate.setter_name <$> ss = ranged_keys photo_and_owner.
Proof.
  destruct photo_and_owner_setters as [ss Hss]. exists ss. split; [assumption|].
  exact (proj1 (setters_named_by_keys photo_and_owner ss Hss)).
Defined.

(* ===================================================================== *)
(** * More on the builder *)
(* ===================================================================== *)

Section Setters.
Context {Payload : Type}.
Implicit Types (b : builder.Impl Payload).

Lemma lookup_Add_eq (key value : string) (m : http.Values) :
  default [] (http.Add key value m !! key) = default [] (m !! key) ++ [value].
Proof. unfold http.Add. now rewrite lookup_insert_eq. Qed.

Lemma lookup_Add_ne (key k value : string) (m : http.Values) :
  k <> key -> http.Add key value m !! k = m !! k.
Proof. intros H. unfold http.Add. now rewrite lookup_insert_ne. Qed.

(** The setters of query and form parameters add and never replace: after
    the calls of such a setter, the values of its key are the values the key
    had before followed by the arguments in the order of the calls; the other
    keys and the other fields of the builder are as before. *)
Theorem values_setter_accumulates (is_query : bool) (key e : string)
    (values : list string) b :
  exists b',
    call_all (generate.AddCall (values_field is_query) key e)
      (builder.Formatted <$> values) b = Some b'
    /\ default [] (values_of is_query b' !! key)
       = default [] (values_of is_query b !! key) ++ values
    /\ (forall k, k <> key -> values_of is_query b' !! k = values_of is_query b !! k)
    /\ values_of (negb is_query) b' = values_of (negb is_query) b
    /\ builder.pathSubstitutions b' = builder.pathSubstitutions b
    /\ builder.headerParams b' = builder.headerParams b
    /\ builder.postBody b' = builder.postBody b
    /\ builder.postMultiPartParam b' = builder.postMultiPartParam b.
Proof.
  revert b. induction values as [|v values IH]; intros b.
  - exists b. cbn. rewrite app_nil_r. repeat split.
  - cbn [fmap list_fmap call_all].
    destruct is_query; cbn [values_field builder.run_statement String.eqb Ascii.eqb
                            Bool.eqb mbind option_bind];
      match goal with
      | |- context [call_all _ _ ?b1] => destruct (IH b1) as (b' & Hc & Hk & Ho & Hrest)
      end;
      exists b'; (split; [exact Hc|]); cbn [values_of negb builder.queryParams
        builder.postFormParams builder.pathSubstitutions builder.headerParams
        builder.postBody builder.postMultiPartParam] in *;
      (split; [rewrite Hk, lookup_Add_eq, <- app_assoc; reflexivity|]);
      (split; [intros k Hne; rewrite (Ho k Hne); now apply lookup_Add_ne|]);
      exact Hrest.
Qed.

Lemma foldl_assign_absent (calls : list (string * string)) (m : gmap string string)
    (k : string) :
  k ∉ calls.*1 -> foldl assign m calls !! k = m !! k.
Proof.
  revert m. induction calls as [|[k' v'] calls IH]; intros m; [reflexivity|].
  cbn [fmap list_fmap fst foldl]. rewrite not_elem_of_cons. intros [Hne Hk].
  rewrite (IH _ Hk). unfold assign. cbn. now rewrite lookup_insert_ne.
Qed.

(** The PATH setters replace: after a sequence of calls, the entry of a key
    is the argument of the last call for the key. *)
Theorem path_setter_last_call_wins (e : string)
    (calls before after : list (string * string)) (k v : string) b :
  calls = before ++ (k, v) :: after ->
  k ∉ after.*1 ->
  exists b',
    call_path_setters e calls b = Some b'
    /\ builder.pathSubstitutions b' !! k = Some v.
Proof.
  intros -> Hk. destruct (call_path_setters_map e (before ++ (k, v) :: after) b)
    as (b' & Hb & Hm).
  exists b'. split; [assumption|].
  rewrite Hm, foldl_app. cbn [foldl]. rewrite foldl_assign_absent by assumption.
  unfold assign at 1. cbn. apply lookup_insert_eq.
Qed.

(** A template without an opening brace goes through path substitution
    unchanged, whatever the entries of the builder and the order of the
    loop. *)
Theorem plain_endpoint_unchanged (api : string) b (order : list (string * string)) :
  plain api = true -> builder.applyPathSubstituions b order api = api.
Proof.
  intros Hp. unfold builder.applyPathSubstituions.
  destruct (size (builder.pathSubstitutions b) =? 0)%nat; [reflexivity|].
  unfold builder.substitute. induction order as [|[k v] order IH]; [reflexivity|].
  cbn [foldl fst snd]. fold (token k).
  assert (builder.Replace api (token k) v = api) as ->; [|exact IH].
  rewrite <- (append_empty_r api) at 1. rewrite Replace_plain by assumption.
  apply append_empty_r.
Qed.

End Setters.

Lemma path_setter_last_call_wins_witness :
  exists b' : builder.Impl string,
    call_path_setters "id" [("id", "1"); ("owner", "7"); ("id", "42")] builder.New
    = Some b'
    /\ builder.pathSubstitutions b' !! "id" = Some "42".
Proof.
  apply (path_setter_last_call_wins "id" _ [("id", "1"); ("owner", "7")] [] "id" "42");
    [reflexivity | apply not_elem_of_nil].
Defined.

Lemma plain_endpoint_unchanged_witness :
  builder.applyPathSubstituions
    (builder.mkImpl {[ "id" := "42" ]} ∅ ∅ (None : option string) ∅ ∅)
    [("id", "42")] "/photos"
  = "/photos".
Proof. apply plain_endpoint_unchanged. reflexivity. Defined.

Section Requests.
Context {Payload : Type} (L : http.library Payload).
Implicit Types (b : builder.Impl Payload) (sch : builder.schedule)
  (cm : restclient.ClientManager) (c : restclient.Client) (req : http.Request).

Lemma set_headers_frame (l : list (string * string)) req :
  let req' := foldl (fun req kv => http.Header_Set L kv.1 kv.2 req) req l in
  http.Method req' = http.Method req /\ http.Url req' = http.Url req
  /\ http.Body req' = http.Body req.
Proof.
  cbn zeta. revert req. induction l as [|[k v] l IH]; intros req; [now cbn|].
  cbn [foldl fst snd].
  destruct (IH (http.Header_Set L k v req)) as (-> & -> & ->). now cbn.
Qed.

Lemma finish_frame sch req :
  http.Method (builder.finish L sch req) = http.Method req
  /\ http.Url (builder.finish L sch req) = http.Url req
  /\ http.Body (builder.finish L sch req) = http.Body req.
Proof.
  unfold builder.finish.
  destruct (set_headers_frame (builder.header_order sch)
              (http.Header_Set L "Accept" "application/json" req)) as (-> & -> & ->).
  now cbn.
Qed.

Lemma set_headers_absent (l : list (string * string)) req (key : string) :
  key ∉ (http.CanonicalMIMEHeaderKey L <$> l.*1) ->
  http.Header (foldl (fun req kv => http.Header_Set L kv.1 kv.2 req) req l) !! key
  = http.Header req !! key.
Proof.
  revert req. induction l as [|[k v] l IH]; intros req; [reflexivity|].
  cbn [fmap list_fmap fst snd foldl]. rewrite not_elem_of_cons. intros [Hne Hk].
  rewrite (IH _ Hk). cbn. now rewrite lookup_insert_ne.
Qed.

(** The header entries are set after the Accept header, each one replacing
    what the request has under its canonical key: the request that [build]
    returns has, under the canonical key of an entry, the one value of the
    last entry visited with that canonical key (also under the key of
    Accept), and the Accept header that [build] sets when no entry has its
    canonical key. *)
Theorem finish_sets_headers sch req :
  (forall before after k v,
     builder.header_order sch = before ++ (k, v) :: after ->
     http.CanonicalMIMEHeaderKey L k ∉ (http.CanonicalMIMEHeaderKey L <$> after.*1) ->
     http.Header (builder.finish L sch req) !! http.CanonicalMIMEHeaderKey L k
     = Some [v])
  /\ (http.CanonicalMIMEHeaderKey L "Accept"
        ∉ (http.CanonicalMIMEHeaderKey L <$> (builder.header_order sch).*1) ->
      http.Header (builder.finish L sch req) !! http.CanonicalMIMEHeaderKey L "Accept"
      = Some ["application/json"]).
Proof.
  unfold builder.finish. split.
  - intros before after k v -> Hk. rewrite foldl_app. cbn [foldl].
    rewrite set_headers_absent by assumption. cbn. apply lookup_insert_eq.
  - intros Hk. rewrite set_headers_absent by assumption. cbn. apply lookup_insert_eq.
Qed.

(** For GET and DELETE, with a client registered, [build] does not panic:
    it returns the error of [http.NewRequest], or a request with the method,
    without a body, at the location that was parsed, whose query is the
    encoding of the query parameters when there are any and the query of the
    URL otherwise. *)
Theorem build_GET_DELETE_request c cm endpoint httpMethod sch b :
  httpMethod = "GET" \/ httpMethod = "DELETE" ->
  let url := restclient.BaseURL c
             +:+ builder.applyPathSubstituions b (builder.path_order sch) endpoint in
  match http.NewRequest L httpMethod url None with
  | Error err =>
      builder.build L (restclient.RegisterClient (Some c) cm) endpoint httpMethod sch b
      = Returns (Error err)
  | Value made =>
      exists req,
        builder.build L (restclient.RegisterClient (Some c) cm) endpoint httpMethod sch b
        = Returns (Value req)
        /\ http.Method req = httpMethod
        /\ http.Body req = None
        /\ http.Location (http.Url req) = http.Location (http.Url made)
        /\ http.RawQuery (http.Url req)
           = if (0 <? size (builder.queryParams b))%nat
             then http.Values_Encode L (builder.queryParams b)
             else http.RawQuery (http.Url made)
  end.
Proof.
  intros Hm url.
  assert (builder.make_request L sch httpMethod url b
          = match http.NewRequest L httpMethod url None with
            | Error err => Error err
            | Value req =>
                Value (Some (if (0 <? size (builder.queryParams b))%nat
                             then http.set_RawQuery
                                    (http.Values_Encode L (builder.queryParams b)) req
                             else req))
            end) as Hmake by (destruct Hm as [-> | ->]; reflexivity).
  unfold builder.build.
  cbn [restclient.GetClient restclient.RegisterClient restclient.client].
  fold url. rewrite Hmake.
  destruct (http.NewRequest L httpMethod url None) as [made|err] eqn:E; [|reflexivity].
  eexists. split; [reflexivity|].
  destruct (finish_frame sch
              (if (0 <? size (builder.queryParams b))%nat
               then http.set_RawQuery (http.Values_Encode L (builder.queryParams b)) made
               else made)) as (-> & -> & ->).
  assert (http.Method made = httpMethod /\ http.Body made = None) as [HM HB].
  { revert E. unfold http.NewRequest.
    destruct (negb _); [discriminate|]. destruct (http.url_Parse L url); [|discriminate].
    intros [= <-]. cbn. destruct Hm as [-> | ->]; now split. }
  destruct (0 <? size (builder.queryParams b))%nat; cbn; auto.
Qed.

(** [build] reads the form and multipart parameters only when nothing
    ranks before them: with a body object set, the outcome is the same
    whatever the form and multipart parameters are, for every method; and
    without a body object but with form parameters, it is the same whatever
    the multipart parameters are. *)
Theorem build_ignores_lower_ranks cm endpoint httpMethod sch
    (paths headers : gmap string string) (queries form : http.Values)
    (parts parts' : gmap string string) :
  (forall (body : Payload) (form' : http.Values),
     builder.build L cm endpoint httpMethod sch
       (builder.mkImpl paths queries form (Some body) parts headers)
     = builder.build L cm endpoint httpMethod sch
         (builder.mkImpl paths queries form' (Some body) parts' headers))
  /\ ((0 < size form)%nat ->
      builder.build L cm endpoint httpMethod sch
        (builder.mkImpl paths queries form None parts headers)
      = builder.build L cm endpoint httpMethod sch
          (builder.mkImpl paths queries form None parts' headers)).
Proof.
  split.
  - intros body form'. reflexivity.
  - intros Hf. apply Nat.ltb_lt in Hf.
    unfold builder.build, builder.make_request. cbn [builder.postBody
      builder.postFormParams builder.queryParams builder.pathSubstitutions
      builder.applyPathSubstituions]. now rewrite Hf.
Qed.

End Requests.

Lemma finish_sets_headers_witness :
  http.Header
    (builder.finish plain_library
       (builder.mkSchedule [] [] [("Accept", "text/plain"); ("x-type", "photo")])
       (http.mkRequest "GET" (http.mkURL "/photos" "") None ∅))
  !! "Accept" = Some ["text/plain"].
Proof.
  apply (proj1 (finish_sets_headers plain_library
                  (builder.mkSchedule [] []
                     [("Accept", "text/plain"); ("x-type", "photo")])
                  (http.mkRequest "GET" (http.mkURL "/photos" "") None ∅))
           [] [("x-type", "photo")] "Accept" "text/plain" eq_refl).
  cbn. rewrite list_elem_of_singleton. discriminate.
Defined.

Lemma build_GET_DELETE_request_witness :
  exists req,
    builder.build plain_library
      (restclient.RegisterClient (Some local_client) restclient.clientManager)
      "/photos" "GET" (builder.mkSchedule [] [] []) builder.New
    = Returns (Value req)
    /\ http.Method req = "GET"
    /\ http.Body req = None
    /\ http.Location (http.Url req) = "http://localhost/photos"
    /\ http.RawQuery (http.Url req) = "".
Proof.
  exact (build_GET_DELETE_request plain_library local_client restclient.clientManager
           "/photos" "GET" (builder.mkSchedule [] [] []) builder.New (or_introl eq_refl)).
Defined.

Lemma build_ignores_lower_ranks_witness :
  builder.build plain_library
    (restclient.RegisterClient (Some local_client) restclient.clientManager)
    "/upload" "POST" (builder.mkSchedule [] [] [])
    (builder.mkImpl ∅ ∅ {[ "body" := ["text"] ]} None ∅ ∅)
  = builder.build plain_library
      (restclient.RegisterClient (Some local_client) restclient.clientManager)
      "/upload" "POST" (builder.mkSchedule [] [] [])
      (builder.mkImpl ∅ ∅ {[ "body" := ["text"] ]} None {[ "data" := "bytes" ]} ∅).
Proof.
  apply (proj2 (build_ignores_lower_ranks plain_library
                  (restclient.RegisterClient (Some local_client) restclient.clientManager)
                  "/upload" "POST" (builder.mkSchedule [] [] []) ∅ ∅ ∅
                  {[ "body" := ["text"] ]} ∅ {[ "data" := "bytes" ]})).
  vm_compute. lia.
Defined.

(* ===================================================================== *)
(** * More on the walk and the template functions *)
(* ===================================================================== *)

(** The maps of the request spec only grow: an entry that the walk has
    recorded under a name is still recorded under that name, possibly for a
    later method of the same name, after any further part of the walk; the
    methods of every annotated interface of a unit come together in the one
    spec. *)
Theorem entries_are_never_removed (node : ast.Node) (p p' : parse.Parser)
    (c : category) (name : string) :
  parse.Walk p node = Returns p' ->
  is_Some (slot c (parse.result p) !! name) ->
  is_Some (slot c (parse.result p') !! name).
Proof.
  rewrite Walk_preorder. intros Hw Hin.
  refine (visit_all_invariant (fun r => is_Some (slot c r !! name)) _ _ _ _ p p' Hin Hw).
  - intros annotation n f r H. destruct (decide (n = name)) as [-> | Hne].
    + unfold parse.route.
      repeat (match goal with
              | |- context [if ?b then _ else _] => destruct b
              end); destruct c; cbn; try assumption; rewrite lookup_insert_eq; eauto.
    + now rewrite route_other.
  - intros n r H. now destruct c.
  - intros method endpoint r H. now destruct c.
Qed.

Lemma after_photo_and_owner_walked :
  exists p',
    parse.Walk after_photo_and_owner (example.interface [example.Data]) = Returns p'.
Proof. eexists. vm_compute. reflexivity. Defined.

(** The walk over a second interface keeps the method PhotoID of the
    first. *)
Lemma entries_are_never_removed_witness :
  exists p',
    parse.Walk after_photo_and_owner (example.interface [example.Data]) = Returns p'
    /\ is_Some (slot InPath (parse.result p') !! "PhotoID").
Proof.
  destruct after_photo_and_owner_walked as [p' Hp']. exists p'. split; [assumption|].
  apply (entries_are_never_removed _ after_photo_and_owner p' InPath "PhotoID" Hp').
  vm_compute. eauto.
Defined.

(** [getParamName] names the same parameter with and without formatting:
    asked to force a string it returns the formatting call around the name
    it returns otherwise, and fails as it fails otherwise; an index that is
    not below the number of parameters ends the process and does not
    panic. *)
Theorem getParamName_modes (function : ast.Expr) (index : nat) :
  generate.getParamName function true index
  = (paramName ← generate.getParamName function false index;
     Returns (formatted paramName))
  /\ (forall params, function = ast.FuncType params -> length params <= index ->
      exists why, generate.getParamName function false index = Exits why).
Proof.
  split.
  - unfold generate.getParamName. destruct function; try reflexivity.
    destruct (length Params =? 0)%nat; [reflexivity|].
    destruct (Params !! index) as [param|]; [|reflexivity].
    now destruct (ast.Names param).
  - intros params -> Hlen. unfold generate.getParamName.
    destruct (length params =? 0)%nat; [eauto|].
    rewrite lookup_ge_None_2 by assumption. eauto.
Qed.

Lemma getParamName_modes_witness :
  exists why,
    generate.getParamName (ast.FuncType [ast.mkField None ["id"] (ast.Ident "string")])
      false 1
    = Exits why.
Proof.
  apply (proj2 (getParamName_modes _ 1)
           [ast.mkField None ["id"] (ast.Ident "string")] eq_refl).
  cbn. lia.
Defined.
